(** * gohttptest: the request-dispatch and metrics-aggregation engine

    A shallow embedding of [src/gohttptest.go] (function [Test] and the
    [result] struct) and the properties of its collector, percentile
    computation, worker loop and entry guard. *)

From Stdlib Require Import ZArith List Bool Lia String Sorted Permutation.
From Stdlib Require Import Floats.SpecFloat.
Import ListNotations.
Local Open Scope Z_scope.

(** ** Machine integers and durations *)

(** Go's [int], [int64] and [time.Duration] are 64-bit two's complement. *)
Definition wrap64 (z : Z) : Z := (z + 2 ^ 63) mod 2 ^ 64 - 2 ^ 63.

Definition int64_min : Z := - 2 ^ 63.
Definition int64_max : Z := 2 ^ 63 - 1.

(** [time.Duration] counts nanoseconds. *)
Definition time_Nanosecond : Z := 1.
Definition time_Microsecond : Z := 1000 * time_Nanosecond.
Definition time_Millisecond : Z := 1000 * time_Microsecond.
Definition time_Second : Z := 1000 * time_Millisecond.
Definition time_Minute : Z := 60 * time_Second.
Definition time_Hour : Z := 60 * time_Minute.

(** ** The [result] struct (lines 190-195) *)

Definition error : Type := string.

Record result : Type := mkResult {
  StatusCode : Z;
  Duration : Z;
  Bytes : Z;
  Error : option error
}.

(** ** The collector loop (lines 117-147) *)

Record collector : Type := mkCollector {
  totalRequests : Z;
  successCount : Z;
  failedCount : Z;
  totalDuration : Z;
  minDuration : Z;
  maxDuration : Z;
  durations : list Z;
  totalBytes : Z
}.

(** The [var ( ... )] block: every variable has its zero value except
    [minDuration = time.Hour]. *)
Definition collector_init : collector :=
  {| totalRequests := 0; successCount := 0; failedCount := 0;
     totalDuration := 0; minDuration := time_Hour; maxDuration := 0;
     durations := []; totalBytes := 0 |}.

(** The condition of line 142: [res.Error != nil || res.StatusCode >= 400]. *)
Definition is_failed (res : result) : bool :=
  match Error res with
  | Some _ => true
  | None => 400 <=? StatusCode res
  end.

(** One iteration of [for res := range results]. *)
Definition collect_one (c : collector) (res : result) : collector :=
  let failed := is_failed res in
  {| totalRequests := wrap64 (totalRequests c + 1);
     totalDuration := wrap64 (totalDuration c + Duration res);
     totalBytes := wrap64 (totalBytes c + Bytes res);
     minDuration :=
       if Duration res <? minDuration c then Duration res else minDuration c;
     maxDuration :=
       if maxDuration c <? Duration res then Duration res else maxDuration c;
     durations := durations c ++ [Duration res];
     failedCount :=
       if failed then wrap64 (failedCount c + 1) else failedCount c;
     successCount :=
       if failed then successCount c else wrap64 (successCount c + 1) |}.

(** The whole loop over the outcomes in arrival order. *)
Definition collect_from (c : collector) (rs : list result) : collector :=
  fold_left collect_one rs c.

Definition collect (rs : list result) : collector :=
  collect_from collector_init rs.

(** Reference quantities the collector is compared with. *)
Definition count_failed (rs : list result) : Z :=
  Z.of_nat (List.length (filter is_failed rs)).

Definition count_ok (rs : list result) : Z :=
  Z.of_nat (List.length (filter (fun r => negb (is_failed r)) rs)).

Fixpoint list_min (d : Z) (ds : list Z) : Z :=
  match ds with
  | [] => d
  | x :: tl => Z.min d (list_min x tl)
  end.

Fixpoint list_max (d : Z) (ds : list Z) : Z :=
  match ds with
  | [] => d
  | x :: tl => Z.max d (list_max x tl)
  end.

(** Minimum and maximum of a non-empty list; [None] on the empty one. *)
Definition minimum (ds : list Z) : option Z :=
  match ds with
  | [] => None
  | x :: tl => Some (list_min x tl)
  end.

Definition maximum (ds : list Z) : option Z :=
  match ds with
  | [] => None
  | x :: tl => Some (list_max x tl)
  end.

(** ** [slices.Sort] on durations (line 153) *)

Fixpoint insert_sorted (x : Z) (l : list Z) : list Z :=
  match l with
  | [] => [x]
  | y :: tl => if x <=? y then x :: l else y :: insert_sorted x tl
  end.

(** Ascending order; on integers the sorted arrangement is unique, so the
    algorithm the library picks is not observable. *)
Definition slices_Sort (l : list Z) : list Z :=
  fold_right insert_sorted [] l.

(** ** IEEE 754 binary64 arithmetic of the percentile indices

    [float64] is binary64: 53 bits of precision, infinities at exponent 1024.
    The operations are the ones of the IEEE specification in [SpecFloat]. *)

Definition float64 : Type := spec_float.

(** The conversion [float64(n)] of an integer, rounding to nearest even. *)
Definition float64_of_int (n : Z) : float64 :=
  binary_normalize 53 1024 n 0 false.

Definition float64_mul (x y : float64) : float64 := SFmul 53 1024 x y.

(** The constants [0.50], [0.90], [0.95], [0.99] are untyped constants that
    the compiler converts to the nearest [float64]. *)
Definition c50 : float64 := S754_finite false 4503599627370496 (-53).
Definition c90 : float64 := S754_finite false 8106479329266893 (-53).
Definition c95 : float64 := S754_finite false 8556839292003942 (-53).
Definition c99 : float64 := S754_finite false 8917127262193582 (-53).

(** The conversion [int(f)] truncates toward zero; a value that does not
    fit in 64 bits (or is not a number) converts to the smallest integer,
    as the amd64 instruction does. *)
Definition trunc_float64 (f : float64) : Z :=
  match f with
  | S754_zero _ => 0
  | S754_finite s m e =>
      let a := match e with
               | Zneg p => Zpos m / 2 ^ Zpos p
               | _ => Zpos m * 2 ^ e
               end in
      if s then - a else a
  | _ => int64_min
  end.

Definition int_of_float64 (f : float64) : Z :=
  let t := trunc_float64 f in
  if (int64_min <=? t) && (t <=? int64_max) then t else int64_min.

(** [int(float64(len(durations)) * c)], lines 155-158. *)
Definition pindex (c : float64) (len : Z) : Z :=
  int_of_float64 (float64_mul (float64_of_int len) c).

(** The index the truncating nearest-rank rule names: [floor(p/100 * len)]. *)
Definition rank_index (p len : Z) : Z := p * len / 100.

(** The runtime addresses fewer than [2^48] bytes and a duration takes 8 of
    them, so a slice of durations has fewer than [2^45] elements. *)
Definition max_durations : Z := 2 ^ 45.

(** Round-to-nearest-even of [x / 2^n] in integer arithmetic. *)
Definition rne (x n : Z) : Z :=
  let q := x / 2 ^ n in
  let r := x mod 2 ^ n in
  if 2 * r <? 2 ^ n then q
  else if 2 ^ n <? 2 * r then q + 1
  else if Z.even q then q else q + 1.

(** A slice index: out of range panics. *)
Definition index_at (ds : list Z) (i : Z) : option Z :=
  if (i <? 0) || (Z.of_nat (List.length ds) <=? i) then None
  else nth_error ds (Z.to_nat i).

Record percentiles : Type := mkPercentiles {
  p50 : Z; p90 : Z; p95 : Z; p99 : Z
}.

(** Lines 151-159: [None] stands for the run-time panic of an index out of
    range; on an empty slice the four variables keep their zero value. *)
Definition compute_percentiles (ds : list Z) : option percentiles :=
  let n := Z.of_nat (List.length ds) in
  if 0 <? n then
    let sorted := slices_Sort ds in
    match index_at sorted (pindex c50 n), index_at sorted (pindex c90 n),
          index_at sorted (pindex c95 n), index_at sorted (pindex c99 n) with
    | Some a, Some b, Some c, Some d => Some (mkPercentiles a b c d)
    | _, _, _, _ => None
    end
  else Some (mkPercentiles 0 0 0 0).

(** ** The report (lines 149-186)

    Formatting is peripheral.  A value printed with [%f] is the quotient of a
    [float64] division and is kept as its two integer operands: such a
    division never panics (a zero divisor gives an infinity or a NaN).  An
    integer division panics on a zero divisor. *)

Record ratio : Type := mkRatio { numer : Z; denom : Z }.

Definition go_div (a b : Z) : option Z :=
  if b =? 0 then None else Some (wrap64 (Z.quot a b)).

(** The lines printed only under [if totalRequests > 0]. *)
Record latency_report : Type := mkLatency {
  avgDuration : Z;
  minReported : Z;
  maxReported : Z;
  pcts : percentiles;
  throughput : option ratio;
  successRate : ratio
}.

Record report : Type := mkReport {
  timeTaken : Z;
  total : Z;
  successful : Z;
  failed : Z;
  requestsPerSecond : ratio;
  latency : option latency_report
}.

(** [None] is a run-time panic. *)
Definition build_report (c : collector) (totalTestTime : Z) : option report :=
  match compute_percentiles (durations c) with
  | None => None
  | Some ps =>
      let rps := mkRatio (totalRequests c) totalTestTime in
      if 0 <? totalRequests c then
        match go_div (totalDuration c) (totalRequests c) with
        | None => None
        | Some avg =>
            let tp := if 0 <? totalTestTime
                      then Some (mkRatio (totalBytes c) totalTestTime)
                      else None in
            Some (mkReport totalTestTime (totalRequests c) (successCount c)
                    (failedCount c) rps
                    (Some (mkLatency avg (minDuration c) (maxDuration c) ps tp
                             (mkRatio (successCount c) (totalRequests c)))))
        end
      else
        Some (mkReport totalTestTime (totalRequests c) (successCount c)
                (failedCount c) rps None)
  end.

(** ** One request of a worker (lines 74-106)

    The clock is threaded explicitly: a computation reads and advances the
    monotonic clock, in nanoseconds. *)

Definition timed (A : Type) : Type := Z -> A * Z.

Definition ret {A : Type} (a : A) : timed A := fun t => (a, t).

Definition bind {A B : Type} (m : timed A) (k : A -> timed B) : timed B :=
  fun t => let (a, t') := m t in k a t'.

Notation "x <- m ;; k" := (bind m (fun x => k))
  (at level 61, m at next level, right associativity).

Definition time_Now : timed Z := fun t => (t, t).

(** [time.Since] saturates at the bounds of [Duration]. *)
Definition saturate64 (z : Z) : Z := Z.max int64_min (Z.min int64_max z).

Definition time_Since (start : Z) : timed Z :=
  fun t => (saturate64 (t - start), t).

Definition elapse (ns : Z) : timed unit := fun t => (tt, t + ns).

(** What the network answers to one request, and how long each call
    takes. *)
Record exchange : Type := mkExchange {
  build_error : option error;   (* http.NewRequestWithContext *)
  build_ns : Z;
  do_error : option error;      (* client.Do *)
  do_status : Z;
  do_ns : Z;
  body_len : Z;                 (* bytes io.ReadAll returns; its error is dropped *)
  read_ns : Z
}.

Definition NewRequestWithContext (x : exchange) : timed (option error) :=
  _ <- elapse (build_ns x) ;; ret (build_error x).

Definition client_Do (x : exchange) : timed (error + Z) :=
  _ <- elapse (do_ns x) ;;
  ret (match do_error x with
       | Some err => inl err
       | None => inr (do_status x)
       end).

Definition io_ReadAll (x : exchange) : timed Z :=
  _ <- elapse (read_ns x) ;; ret (body_len x).

(** The [default] branch of the [select]: the value sent on [results]. *)
Definition attempt (x : exchange) : timed result :=
  reqStart <- time_Now ;;
  err <- NewRequestWithContext x ;;
  match err with
  | Some e =>
      d <- time_Since reqStart ;;
      ret (mkResult 0 d 0 (Some e))
  | None =>
      resp <- client_Do x ;;
      duration <- time_Since reqStart ;;
      match resp with
      | inl e => ret (mkResult 0 duration 0 (Some e))
      | inr status =>
          n <- io_ReadAll x ;;
          ret (mkResult status duration n None)
      end
  end.

(** The request failed before a response was obtained. *)
Definition request_fails (x : exchange) : option error :=
  match build_error x with
  | Some e => Some e
  | None => do_error x
  end.

(** Clock readings of one successful request, for comparison. *)
Definition elapsed_to_response (x : exchange) : Z := build_ns x + do_ns x.

Definition elapsed_to_body_read (x : exchange) : Z :=
  build_ns x + do_ns x + read_ns x.

(** ** The worker pool, the watcher and the collector as a transition system
    (lines 38-147)

    A worker is at the head of [for range jobs], holds a token in front of
    the [select], has a request in flight, or has returned. *)

Inductive wstate : Type := AtRange | AtSelect | InFlight | Exited.

Record state : Type := mkState {
  jobs : nat;                (* tokens left in the closed [jobs] channel *)
  cancelled : bool;          (* [ctx.Done()] is closed *)
  workers : list wstate;
  results : list result;     (* buffer of the [results] channel, oldest first *)
  results_cap : nat;
  results_closed : bool;
  coll : collector;          (* the variables of the collector loop *)
  collecting : bool          (* [for res := range results] still runs *)
}.

Inductive label : Type :=
  | Take (i : nat)                          (* receive a token, line 69 *)
  | Drained (i : nat)                       (* [jobs] closed and empty: loop ends *)
  | Observe (i : nat)                       (* [case <-ctx.Done(): return] *)
  | Begin (i : nat)                         (* [default:] is chosen *)
  | Finish (i : nat) (t0 : Z) (x : exchange) (* the outcome is sent *)
  | Interrupt                               (* [cancel()], line 46 *)
  | CloseResults                            (* [wg.Wait(); close(results)] *)
  | Receive                                 (* one iteration of the collector *)
  | EndCollect.                             (* [results] closed and empty *)

Definition actor (l : label) : option nat :=
  match l with
  | Take i | Drained i | Observe i | Begin i | Finish i _ _ => Some i
  | _ => None
  end.

Definition is_interrupt (l : label) : bool :=
  match l with Interrupt => true | _ => false end.

Fixpoint upd (i : nat) (w : wstate) (ws : list wstate) : list wstate :=
  match ws, i with
  | [], _ => []
  | _ :: tl, O => w :: tl
  | v :: tl, S j => v :: upd j w tl
  end.

Definition is_exited (w : wstate) : bool :=
  match w with Exited => true | _ => false end.

Definition set_worker (s : state) (i : nat) (w : wstate) : state :=
  mkState (jobs s) (cancelled s) (upd i w (workers s)) (results s)
    (results_cap s) (results_closed s) (coll s) (collecting s).

Definition exec_step (l : label) (s : state) : option state :=
  match l with
  | Take i =>
      match nth_error (workers s) i, jobs s with
      | Some AtRange, S n =>
          Some (mkState n (cancelled s) (upd i AtSelect (workers s))
                  (results s) (results_cap s) (results_closed s) (coll s)
                  (collecting s))
      | _, _ => None
      end
  | Drained i =>
      match nth_error (workers s) i, jobs s with
      | Some AtRange, O => Some (set_worker s i Exited)
      | _, _ => None
      end
  | Observe i =>
      match nth_error (workers s) i with
      | Some AtSelect =>
          if cancelled s then Some (set_worker s i Exited) else None
      | _ => None
      end
  | Begin i =>
      match nth_error (workers s) i with
      | Some AtSelect =>
          if cancelled s then None else Some (set_worker s i InFlight)
      | _ => None
      end
  | Finish i t0 x =>
      match nth_error (workers s) i with
      | Some InFlight =>
          if (List.length (results s) <? results_cap s)%nat then
            Some (mkState (jobs s) (cancelled s) (upd i AtRange (workers s))
                    (results s ++ [fst (attempt x t0)]) (results_cap s)
                    (results_closed s) (coll s) (collecting s))
          else None
      | _ => None
      end
  | Interrupt =>
      if cancelled s then None
      else Some (mkState (jobs s) true (workers s) (results s)
                   (results_cap s) (results_closed s) (coll s) (collecting s))
  | CloseResults =>
      if forallb is_exited (workers s) && negb (results_closed s) then
        Some (mkState (jobs s) (cancelled s) (workers s) (results s)
                (results_cap s) true (coll s) (collecting s))
      else None
  | Receive =>
      match results s with
      | res :: rest =>
          if collecting s then
            Some (mkState (jobs s) (cancelled s) (workers s) rest
                    (results_cap s) (results_closed s)
                    (collect_one (coll s) res) true)
          else None
      | [] => None
      end
  | EndCollect =>
      match results s with
      | [] =>
          if results_closed s && collecting s then
            Some (mkState (jobs s) (cancelled s) (workers s) []
                    (results_cap s) true (coll s) false)
          else None
      | _ :: _ => None
      end
  end.

(** A schedule is the list of the steps taken, in order. *)
Fixpoint run (tr : list label) (s : state) : option state :=
  match tr with
  | [] => Some s
  | l :: tl =>
      match exec_step l s with
      | Some s' => run tl s'
      | None => None
      end
  end.

(** The state once the channels are filled and the goroutines spawned:
    [count_r] tokens, [count_p] workers ([range] over a negative integer
    does not iterate). *)
Definition init_state (count_p count_r : Z) : state :=
  mkState (Z.to_nat count_r) false (repeat AtRange (Z.to_nat count_p)) []
    (Z.to_nat count_r) false collector_init true.

Definition no_interrupt (tr : list label) : bool :=
  forallb (fun l => negb (is_interrupt l)) tr.

Definition is_receive (l : label) : bool :=
  match l with Receive => true | _ => false end.

Definition no_receive (tr : list label) : bool :=
  forallb (fun l => negb (is_receive l)) tr.

(** The potential that every step lowers. *)
Definition weight (w : wstate) : nat :=
  match w with
  | AtRange => 1
  | AtSelect => 4
  | InFlight => 3
  | Exited => 0
  end.

Definition pending (w : wstate) : nat :=
  match w with
  | AtSelect | InFlight => 1
  | _ => 0
  end.

Fixpoint total_of (f : wstate -> nat) (ws : list wstate) : nat :=
  match ws with
  | [] => 0
  | w :: tl => f w + total_of f tl
  end.

Definition potential (s : state) : nat :=
  4 * jobs s + total_of weight (workers s) + List.length (results s)
  + (if cancelled s then 0 else 1) + (if results_closed s then 0 else 1)
  + (if collecting s then 1 else 0).

(** What holds of every state of a run that is not interrupted, for
    [N] tokens and [P] workers. *)
Definition pool_inv (N P : nat) (s : state) : Prop :=
  cancelled s = false
  /\ (jobs s + total_of pending (workers s) + List.length (results s)
      + List.length (durations (coll s)) = N)%nat
  /\ results_cap s = N
  /\ List.length (workers s) = P
  /\ totalRequests (coll s)
     = wrap64 (Z.of_nat (List.length (durations (coll s))))
  /\ (collecting s = false -> results s = [] /\ results_closed s = true)
  /\ (results_closed s = true -> forallb is_exited (workers s) = true)
  /\ (existsb is_exited (workers s) = true -> jobs s = 0%nat).

(** ** The entry of [Test] (lines 21-58) *)

Inductive channel : Type := ResultsChan | JobsChan.

Inductive entry : Type :=
  | Usage                                   (* prints the usage and returns *)
  | Panics (c : channel)                    (* [makechan: size out of range] *)
  | Starts (site : string) (s : state).

(** Lines 29-31. *)
Definition normalize_site (site : string) : string :=
  if (4 <? String.length site)%nat
     && negb (String.eqb (substring 0 4 site) "http")
  then ("http://" ++ site)%string else site.

(** [make(chan T, n)] panics on a negative capacity. *)
Definition make_chan (capacity : Z) : option nat :=
  if capacity <? 0 then None else Some (Z.to_nat capacity).

Definition Test_entry (site : string) (count_p count_r : Z) : entry :=
  if String.eqb site "" || (count_p =? 0) || (count_r =? 0) then Usage
  else
    let site := normalize_site site in
    match make_chan count_r with            (* line 49 *)
    | None => Panics ResultsChan
    | Some _ =>
        match make_chan count_r with        (* line 54 *)
        | None => Panics JobsChan
        | Some _ => Starts site (init_state count_p count_r)
        end
    end.

(** ** Further quantities of a run *)

Definition sum_durations (rs : list result) : Z :=
  fold_right (fun r acc => Duration r + acc) 0 rs.

Definition sum_bytes (rs : list result) : Z :=
  fold_right (fun r acc => Bytes r + acc) 0 rs.

Definition is_finish (l : label) : bool :=
  match l with Finish _ _ _ => true | _ => false end.

(** The number of outcomes sent in a schedule. *)
Definition count_finish (tr : list label) : nat :=
  List.length (filter is_finish tr).

Definition is_begin (l : label) : bool :=
  match l with Begin _ => true | _ => false end.

Definition no_begin (tr : list label) : bool :=
  forallb (fun l => negb (is_begin l)) tr.

Definition is_close (l : label) : bool :=
  match l with CloseResults => true | _ => false end.

Definition in_flight (w : wstate) : nat :=
  match w with InFlight => 1%nat | _ => 0%nat end.

Definition is_observe (l : label) : bool :=
  match l with Observe _ => true | _ => false end.

(** The number of tokens dropped by workers that found the signal set. *)
Definition count_observe (tr : list label) : nat :=
  List.length (filter is_observe tr).

Definition returned (w : wstate) : nat :=
  match w with Exited => 1%nat | _ => 0%nat end.

(** The outcomes of a list of requests, each with its starting time. *)
Definition outcomes (xs : list (exchange * Z)) : list result :=
  map (fun p => fst (attempt (fst p) (snd p))) xs.

(** The outcomes sent in a schedule, in the order of the sends. *)
Fixpoint sent (tr : list label) : list result :=
  match tr with
  | [] => []
  | Finish _ t0 x :: tl => fst (attempt x t0) :: sent tl
  | _ :: tl => sent tl
  end.

(** What holds of every state of every run, interrupted or not. *)
Definition run_inv (N P : nat) (s : state) : Prop :=
  (jobs s + total_of pending (workers s) + List.length (results s)
   + List.length (durations (coll s)) <= N)%nat
  /\ results_cap s = N
  /\ List.length (workers s) = P
  /\ totalRequests (coll s)
     = wrap64 (Z.of_nat (List.length (durations (coll s))))
  /\ (collecting s = false -> results s = [] /\ results_closed s = true)
  /\ (results_closed s = true -> forallb is_exited (workers s) = true).

(** An outcome with an error carries no status code and no bytes. *)
Definition well_formed (r : result) : Prop :=
  Error r <> None -> StatusCode r = 0 /\ Bytes r = 0.

(** ** Filling the [jobs] channel (lines 54-57)

    A send on a buffered channel that is full blocks; while [jobs] is
    filled no goroutine receives from it, so a send that blocks never
    returns.  [None] is that deadlock. *)
Definition chan_send (capacity len : nat) : option nat :=
  if (len <? capacity)%nat then Some (S len) else None.

Fixpoint fill_jobs (k capacity len : nat) : option nat :=
  match k with
  | O => Some len
  | S k' =>
      match chan_send capacity len with
      | Some len' => fill_jobs k' capacity len'
      | None => None
      end
  end.

(** * Properties *)

(** ** binary64 multiplication by the percentile constants

    The lemmas below evaluate the IEEE operations of [SpecFloat] on the
    operands of [pindex]: a right shift with round and sticky bits is a
    round-to-nearest-even division by a power of two. *)

Section Binary64.

(** [iter_pos] is plain iteration. *)
Lemma iter_pos_nat {A} (f : A -> A) (p : positive) (x : A) :
  iter_pos f p x = Nat.iter (Pos.to_nat p) f x.
Proof.
  revert x. induction p as [p IH | p IH | ]; intro x; cbn [iter_pos].
  - rewrite !IH, Pos2Nat.inj_xI, <- Nat.iter_succ_r, <- Nat.iter_add.
    f_equal. lia.
  - rewrite !IH, Pos2Nat.inj_xO, <- Nat.iter_add. f_equal. lia.
  - reflexivity.
Qed.

(** One shift halves the mantissa, keeps the bit shifted out as the round
    bit and accumulates the former round bit into the sticky bit. *)
Lemma shr_1_nonneg (m : Z) (r s : bool) :
  0 <= m ->
  shr_1 (Build_shr_record m r s) = Build_shr_record (m / 2) (Z.odd m) (r || s).
Proof.
  intro Hm. destruct m as [ | p | p ]; [reflexivity | | lia].
  destruct p as [p | p | ]; unfold shr_1.
  - f_equal. rewrite Pos2Z.inj_xI. apply Z.div_unique with 1; lia.
  - f_equal. rewrite Pos2Z.inj_xO. apply Z.div_unique with 0; lia.
  - reflexivity.
Qed.

Lemma mod_pow2_succ (m k : Z) :
  0 <= k ->
  m mod 2 ^ (k + 1) = m mod 2 ^ k + 2 ^ k * Z.b2z (Z.testbit m k).
Proof.
  intro Hk. rewrite Z.pow_add_r, Z.pow_1_r by lia.
  rewrite Z.rem_mul_r by lia. f_equal. f_equal.
  rewrite Z.testbit_odd, Z.shiftr_div_pow2, Zodd_mod by lia.
  pose proof (Z.mod_pos_bound (m / 2 ^ k) 2 ltac:(lia)).
  destruct (Z.eqb_spec ((m / 2 ^ k) mod 2) 1); simpl; lia.
Qed.

Lemma shr_iter (m : Z) (k : nat) :
  0 <= m ->
  Nat.iter (S k) shr_1 (Build_shr_record m false false) =
  Build_shr_record (m / 2 ^ Z.of_nat (S k)) (Z.testbit m (Z.of_nat k))
    (negb (m mod 2 ^ Z.of_nat k =? 0)).
Proof.
  intro Hm. induction k as [ | k IH].
  - unfold Nat.iter; cbn [nat_rect]. rewrite shr_1_nonneg by lia. change (Z.of_nat 1) with 1.
    rewrite Z.pow_1_r, Z.bit0_odd. change (2 ^ Z.of_nat 0) with 1.
    rewrite Z.mod_1_r. reflexivity.
  - rewrite Nat.iter_succ, IH.
    assert (Hp : 0 < 2 ^ Z.of_nat (S k)) by (apply Z.pow_pos_nonneg; lia).
    rewrite shr_1_nonneg by (apply Z.div_pos; lia).
    f_equal.
    + rewrite Z.div_div by lia. f_equal.
      replace (Z.of_nat (S (S k))) with (Z.of_nat (S k) + 1) by lia.
      rewrite Z.pow_add_r by lia. reflexivity.
    + rewrite Z.testbit_odd, Z.shiftr_div_pow2 by lia. reflexivity.
    + replace (Z.of_nat (S k)) with (Z.of_nat k + 1) by lia.
      rewrite mod_pow2_succ by lia.
      pose proof (Z.mod_pos_bound m (2 ^ Z.of_nat k) ltac:(apply Z.pow_pos_nonneg; lia)).
      assert (0 < 2 ^ Z.of_nat k) by (apply Z.pow_pos_nonneg; lia).
      destruct (Z.testbit m (Z.of_nat k)); simpl.
      * destruct (Z.eqb_spec (m mod 2 ^ Z.of_nat k + 2 ^ Z.of_nat k * 1) 0); [lia | reflexivity].
      * rewrite Z.mul_0_r, Z.add_0_r. reflexivity.
Qed.

(** Shifting by [p] bits and rounding on the round and sticky bits is
    [rne]. *)
Lemma shr_rne (X : Z) (p : positive) :
  0 <= X ->
  let mrs := iter_pos shr_1 p (Build_shr_record X false false) in
  round_nearest_even (shr_m mrs) (loc_of_shr_record mrs) = rne X (Zpos p)
  /\ shr_m mrs = X / 2 ^ Zpos p.
Proof.
  intros HX mrs. subst mrs. rewrite iter_pos_nat.
  destruct (Pos2Nat.is_succ p) as [k Hk]. rewrite Hk, shr_iter by assumption.
  replace (Z.of_nat (S k)) with (Zpos p) by lia.
  split; [ | reflexivity].
  unfold rne. cbn [shr_m loc_of_shr_record].
  assert (Hp : Zpos p = Z.of_nat k + 1) by lia.
  pose proof (mod_pow2_succ X (Z.of_nat k) ltac:(lia)) as Hmod.
  rewrite <- Hp in Hmod. rewrite Hmod.
  assert (Hpow : 2 ^ Zpos p = 2 * 2 ^ Z.of_nat k)
    by (rewrite Hp, Z.pow_add_r, Z.pow_1_r by lia; ring).
  rewrite Hpow.
  assert (H2k : 0 < 2 ^ Z.of_nat k) by (apply Z.pow_pos_nonneg; lia).
  pose proof (Z.mod_pos_bound X (2 ^ Z.of_nat k) H2k) as Hb.
  set (h := 2 ^ Z.of_nat k) in *. set (lo := X mod h) in *.
  destruct (Z.testbit X (Z.of_nat k)); destruct (Z.eqb_spec lo 0) as [E | E];
    cbn [negb Z.b2z round_nearest_even].
  - destruct (Z.ltb_spec (2 * (lo + h * 1)) (2 * h)); [lia | ].
    destruct (Z.ltb_spec (2 * h) (2 * (lo + h * 1))); [lia | reflexivity].
  - destruct (Z.ltb_spec (2 * (lo + h * 1)) (2 * h)); [lia | ].
    destruct (Z.ltb_spec (2 * h) (2 * (lo + h * 1))); [reflexivity | lia].
  - destruct (Z.ltb_spec (2 * (lo + h * 0)) (2 * h)); [reflexivity | lia].
  - destruct (Z.ltb_spec (2 * (lo + h * 0)) (2 * h)); [reflexivity | lia].
Qed.

Lemma pow2_succ (n : Z) : 0 <= n -> 2 ^ (n + 1) = 2 * 2 ^ n.
Proof. intro Hn. rewrite Z.pow_add_r, Z.pow_1_r by lia. ring. Qed.

Lemma digits2_pos_bounds (p : positive) :
  2 ^ (Zpos (digits2_pos p) - 1) <= Zpos p < 2 ^ Zpos (digits2_pos p).
Proof.
  induction p as [p IH | p IH | ]; cbn [digits2_pos].
  - rewrite Pos2Z.inj_succ, Pos2Z.inj_xI.
    replace (Z.succ (Zpos (digits2_pos p)) - 1) with (Zpos (digits2_pos p) - 1 + 1) by lia.
    unfold Z.succ. rewrite !pow2_succ by lia. lia.
  - rewrite Pos2Z.inj_succ, Pos2Z.inj_xO.
    replace (Z.succ (Zpos (digits2_pos p)) - 1) with (Zpos (digits2_pos p) - 1 + 1) by lia.
    unfold Z.succ. rewrite !pow2_succ by lia. lia.
  - simpl. lia.
Qed.

Lemma digits2_pos_unique (p : positive) (d : Z) :
  2 ^ (d - 1) <= Zpos p < 2 ^ d -> Zpos (digits2_pos p) = d.
Proof.
  intros [Hlo Hhi]. pose proof (digits2_pos_bounds p) as [Blo Bhi].
  set (D := Zpos (digits2_pos p)) in *.
  assert (0 < d).
  { destruct (Z.lt_ge_cases 0 d); [assumption | ].
    destruct d as [ | d | d]; [simpl in Hhi; lia | lia | ].
    rewrite (Z.pow_neg_r 2 (Z.neg d)) in Hhi by lia. lia. }
  destruct (Z.lt_trichotomy D d) as [Hlt | [Heq | Hgt]]; [ | assumption | ]; exfalso.
  - assert (2 ^ D <= 2 ^ (d - 1)) by (apply Z.pow_le_mono_r; lia). lia.
  - assert (2 ^ d <= 2 ^ (D - 1)) by (apply Z.pow_le_mono_r; lia). lia.
Qed.

(** A mantissa of 53 bits is kept as it is. *)
Lemma round_aux_exact (sx : bool) (m : positive) (e : Z) :
  Zpos (digits2_pos m) = 53 -> -1074 <= e <= 971 ->
  binary_round_aux 53 1024 sx (Zpos m) e loc_Exact = S754_finite sx m e.
Proof.
  intros Hd He.
  assert (Hs : shr_fexp 53 1024 (Zpos m) e loc_Exact =
               (Build_shr_record (Zpos m) false false, e)).
  { unfold shr_fexp, fexp, emin. cbn [Zdigits2 shr_record_of_loc]. rewrite Hd.
    replace (Z.max (53 + e - 53) (3 - 1024 - 53) - e) with 0 by lia.
    reflexivity. }
  unfold binary_round_aux. rewrite Hs. cbn [shr_m loc_of_shr_record round_nearest_even].
  rewrite Hs. cbn [shr_m].
  destruct (Z.leb_spec e (1024 - 53)); [reflexivity | lia].
Qed.

Lemma pos_iter_xO (m d : positive) :
  Zpos (Pos.iter xO m d) = Zpos m * 2 ^ Zpos d.
Proof.
  induction d as [ | d IH] using Pos.peano_ind.
  - cbn [Pos.iter]. rewrite Pos2Z.inj_xO. change (2 ^ 1) with 2. lia.
  - rewrite Pos.iter_succ, Pos2Z.inj_xO, IH, Pos2Z.inj_succ.
    unfold Z.succ. rewrite pow2_succ by lia. ring.
Qed.

(** An integer below [2^53] converts exactly, to a normalised mantissa. *)
Lemma float64_of_int_exact (len d : Z) :
  2 ^ (d - 1) <= len < 2 ^ d -> 1 <= d <= 53 ->
  exists mx : positive,
    float64_of_int len = S754_finite false mx (d - 53)
    /\ Zpos mx = len * 2 ^ (53 - d)
    /\ Zpos (digits2_pos mx) = 53.
Proof.
  intros Hlen Hd.
  assert (H0 : 0 < 2 ^ (d - 1)) by (apply Z.pow_pos_nonneg; lia).
  destruct len as [ | p | p]; try lia.
  pose proof (digits2_pos_unique p d Hlen) as Hdig.
  unfold float64_of_int, binary_normalize, binary_round, shl_align, fexp, emin.
  rewrite Hdig.
  replace (Z.max (d + 0 - 53) (3 - 1024 - 53) - 0) with (d - 53) by lia.
  destruct (Z.eq_dec d 53) as [-> | Hne].
  - exists p. cbn [Z.sub Z.add Z.opp Z.pos_sub Pos.pred_double Z.succ_double Z.pred_double Z.double].
    change (53 - 53) with 0.
    rewrite round_aux_exact by (assumption || lia).
    repeat split; [ | assumption]. change (2 ^ 0) with 1. lia.
  - destruct (d - 53) as [ | k | k] eqn:Ek; try lia.
    exists (Pos.iter xO p k).
    assert (Hm : Zpos (Pos.iter xO p k) = Zpos p * 2 ^ (53 - d)).
    { rewrite pos_iter_xO. f_equal. f_equal. lia. }
    assert (Hdm : Zpos (digits2_pos (Pos.iter xO p k)) = 53).
    { apply digits2_pos_unique. rewrite Hm.
      assert (E1 : 2 ^ (53 - 1) = 2 ^ (d - 1) * 2 ^ (53 - d))
        by (rewrite <- Z.pow_add_r by lia; f_equal; lia).
      assert (E2 : 2 ^ 53 = 2 ^ d * 2 ^ (53 - d))
        by (rewrite <- Z.pow_add_r by lia; f_equal; lia).
      assert (0 < 2 ^ (53 - d)) by (apply Z.pow_pos_nonneg; lia).
      rewrite E1, E2. nia. }
    replace (Z.max (d + 0 - 53) (3 - 1024 - 53)) with (Z.neg k) by lia.
    rewrite round_aux_exact by (assumption || lia).
    replace (d - 53) with (Z.neg k) by lia. auto.
Qed.

Lemma rne_bounds (X n : Z) (lo : Z) :
  0 <= n -> 0 <= lo -> 2 ^ n * lo <= X < 2 ^ n * (2 * lo) ->
  lo <= rne X n <= 2 * lo.
Proof.
  intros Hn Hlo HX. unfold rne.
  assert (Hp : 0 < 2 ^ n) by (apply Z.pow_pos_nonneg; lia).
  assert (lo <= X / 2 ^ n) by (apply Z.div_le_lower_bound; lia).
  assert (X / 2 ^ n < 2 * lo) by (apply Z.div_lt_upper_bound; lia).
  destruct (2 * (X mod 2 ^ n) <? 2 ^ n); [lia | ].
  destruct (2 ^ n <? 2 * (X mod 2 ^ n)); [lia | ].
  destruct (Z.even (X / 2 ^ n)); lia.
Qed.

(** A mantissa of [53 + n] bits is rounded to 53 bits; a carry out of the
    rounding gives [2^52] at the next exponent. *)
Lemma round_aux_shift (sx : bool) (X n : positive) (e : Z) :
  Zpos (digits2_pos X) = 53 + Zpos n ->
  -1074 <= e + Zpos n -> e + Zpos n + 1 <= 971 ->
  binary_round_aux 53 1024 sx (Zpos X) e loc_Exact =
    if rne (Zpos X) (Zpos n) =? 2 ^ 53
    then S754_finite sx (2 ^ 52)%positive (e + Zpos n + 1)
    else S754_finite sx (Z.to_pos (rne (Zpos X) (Zpos n))) (e + Zpos n).
Proof.
  intros Hd He1 He2.
  assert (Hs : shr_fexp 53 1024 (Zpos X) e loc_Exact =
               (iter_pos shr_1 n (Build_shr_record (Zpos X) false false),
                e + Zpos n)).
  { unfold shr_fexp, fexp, emin. cbn [Zdigits2 shr_record_of_loc]. rewrite Hd.
    replace (Z.max (53 + Zpos n + e - 53) (3 - 1024 - 53) - e) with (Zpos n) by lia.
    reflexivity. }
  destruct (shr_rne (Zpos X) n ltac:(lia)) as [Hr _].
  unfold binary_round_aux. rewrite Hs, Hr.
  pose proof (digits2_pos_bounds X) as HX. rewrite Hd in HX.
  assert (Hq : 2 ^ 52 <= rne (Zpos X) (Zpos n) <= 2 * 2 ^ 52).
  { apply rne_bounds; try lia.
    replace (53 + Zpos n - 1) with (Zpos n + 52) in HX by lia.
    replace (53 + Zpos n) with (Zpos n + 52 + 1) in HX by lia.
    rewrite pow2_succ in HX by lia. rewrite Z.pow_add_r in HX by lia. lia. }
  set (q := rne (Zpos X) (Zpos n)) in *.
  destruct (Z.eqb_spec q (2 ^ 53)) as [E | E].
  - rewrite E.
    replace (shr_fexp 53 1024 (2 ^ 53) (e + Zpos n) loc_Exact)
      with (Build_shr_record (2 ^ 52) false false, e + Zpos n + 1).
    + cbn [shr_m]. change (2 ^ 52) with (Zpos (2 ^ 52)).
      destruct (Z.leb_spec (e + Zpos n + 1) (1024 - 53)); [reflexivity | lia].
    + unfold shr_fexp, fexp, emin. change (Zdigits2 (2 ^ 53)) with 54.
      replace (Z.max (54 + (e + Zpos n) - 53) (3 - 1024 - 53) - (e + Zpos n)) with 1 by lia.
      reflexivity.
  - destruct q as [ | m | m] eqn:Eq; try (change (2 ^ 52) with 4503599627370496 in Hq; lia).
    assert (Hm : Zpos (digits2_pos m) = 53).
    { apply digits2_pos_unique. change (2 ^ (53 - 1)) with (2 ^ 52).
      change (2 ^ 53) with (2 * 2 ^ 52) in *. lia. }
    assert (Hs2 : shr_fexp 53 1024 (Zpos m) (e + Zpos n) loc_Exact =
                  (Build_shr_record (Zpos m) false false, e + Zpos n)).
    { unfold shr_fexp, fexp, emin. cbn [Zdigits2 shr_record_of_loc]. rewrite Hm.
      replace (Z.max (53 + (e + Zpos n) - 53) (3 - 1024 - 53) - (e + Zpos n)) with 0 by lia.
      reflexivity. }
    rewrite Hs2. cbn [shr_m Z.to_pos].
    destruct (Z.leb_spec (e + Zpos n) (1024 - 53)); [reflexivity | lia].
Qed.

(** The rounded quotient is within half a unit of the exact one. *)
Lemma rne_near (X n : Z) :
  0 <= n ->
  2 * rne X n * 2 ^ n - 2 ^ n <= 2 * X <= 2 * rne X n * 2 ^ n + 2 ^ n.
Proof.
  intro Hn. unfold rne.
  assert (Hp : 0 < 2 ^ n) by (apply Z.pow_pos_nonneg; lia).
  pose proof (Z.div_mod X (2 ^ n) ltac:(lia)) as Hdm.
  pose proof (Z.mod_pos_bound X (2 ^ n) Hp) as Hb.
  set (q := X / 2 ^ n) in *. set (r := X mod 2 ^ n) in *. set (h := 2 ^ n) in *.
  destruct (Z.ltb_spec (2 * r) h); [nia | ].
  destruct (Z.ltb_spec h (2 * r)); [nia | ].
  destruct (Z.even q); nia.
Qed.

Lemma trunc_finite_neg (m : positive) (e : Z) :
  e < 0 -> trunc_float64 (S754_finite false m e) = Zpos m / 2 ^ (- e).
Proof. intro He. destruct e; try lia. reflexivity. Qed.

(** The product by one constant: [mc * 2^-53] is the constant, [P] its
    percentage and [rho] the error of its mantissa, [100 * mc - P * 2^53]. *)
Section Rank.

Variables (mc : positive) (P rho : Z).
Hypothesis mc_digits : Zpos (digits2_pos mc) = 53.
Hypothesis mc_error : 100 * Zpos mc = P * 2 ^ 53 + rho.
Hypothesis rho_lower : - P < 2 * rho.
Hypothesis rho_upper : rho <= 50.
Hypothesis P_range : 0 <= P <= 99.

(** The arithmetic heart: [q'] is within half a unit of [mc * len / S], and
    [S * K = 2^53]. *)
Lemma rank_core (len S K q' : Z) :
  1 <= len < 2 ^ 45 -> 0 < S -> K * S = 2 ^ 53 ->
  S * 2 ^ 52 <= Zpos mc * len < S * 2 ^ 53 ->
  2 * q' * S - S <= 2 * (Zpos mc * len) <= 2 * q' * S + S ->
  q' / K = P * len / 100.
Proof.
  intros Hlen HS HK Hy Hq.
  pose proof mc_error as Hmc. pose proof rho_lower as Hrho1.
  pose proof rho_upper as Hrho2. pose proof P_range as HP.
  set (m := Zpos mc) in *.
  assert (HK0 : 0 < K) by nia.
  set (T := P * len / 100).
  pose proof (Z.div_mod (P * len) 100 ltac:(lia)) as Hdm.
  pose proof (Z.mod_pos_bound (P * len) 100 ltac:(lia)) as Hf.
  fold T in Hdm. set (f := (P * len) mod 100) in *.
  assert (H200 : 200 * (m * len) = 2 * (100 * T + f) * 2 ^ 53 + 2 * len * rho) by nia.
  assert (Hlr : - 50 * 2 ^ 45 <= len * rho <= 50 * 2 ^ 45) by nia.
  assert (HPl : 0 <= P * len <= 99 * len) by nia.
  assert (H100 : 100 * (m * len) = 2 ^ 53 * (P * len) + len * rho) by nia.
  change (2 ^ 53) with 9007199254740992 in *.
  change (2 ^ 52) with 4503599627370496 in *.
  change (2 ^ 45) with 35184372088832 in *.
  apply Z.le_antisymm.
  - assert (q' / K < T + 1); [ | lia].
    apply Z.div_lt_upper_bound; [lia | ].
    destruct (Z.lt_ge_cases q' (K * (T + 1))) as [ | Hge]; [assumption | exfalso].
    assert (K * (T + 1) * S <= q' * S) by (apply Z.mul_le_mono_nonneg_r; lia).
    assert (K * (T + 1) * S = (T + 1) * 9007199254740992) by (rewrite <- HK; ring).
    lia.
  - apply Z.div_le_lower_bound; [lia | ].
    destruct (Z.le_gt_cases (K * T) q') as [ | Hlt]; [assumption | exfalso].
    assert ((q' + 1) * S <= K * T * S) by (apply Z.mul_le_mono_nonneg_r; lia).
    assert (K * T * S = T * 9007199254740992) by (rewrite <- HK; ring).
    assert (2 * f * 9007199254740992 + 2 * len * rho + 100 * S <= 0) by lia.
    destruct (Z.eq_dec f 0) as [Hf0 | Hf0]; [ | lia].
    assert (len * (P * 9007199254740992 + rho) < 100 * S * 9007199254740992) by nia.
    nia.
Qed.

(** The index computed in binary64 is the truncated rank. *)
Lemma pindex_rank (len : Z) :
  1 <= len < 2 ^ 45 ->
  pindex (S754_finite false mc (-53)) len = rank_index P len.
Proof.
  intros Hlen. pose proof mc_digits as Hdc. pose proof P_range as HP.
  destruct len as [ | p | p] eqn:El; try lia. rewrite <- El in *.
  set (d := Zpos (digits2_pos p)).
  pose proof (digits2_pos_bounds p) as Hd. fold d in Hd. rewrite <- El in Hd.
  assert (Hd1 : 1 <= d) by (unfold d; lia).
  assert (Hd45 : d <= 45).
  { destruct (Z.le_gt_cases d 45); [assumption | exfalso].
    assert (2 ^ 45 <= 2 ^ (d - 1)) by (apply Z.pow_le_mono_r; lia). lia. }
  destruct (float64_of_int_exact len d Hd ltac:(lia)) as (mx & Hf & Hmx & Hdx).
  unfold pindex, float64_mul. rewrite Hf. cbn [SFmul xorb].
  set (A := 2 ^ (53 - d)) in *.
  assert (HA : 0 < A) by (apply Z.pow_pos_nonneg; lia).
  pose proof (digits2_pos_bounds mx) as Bx. rewrite Hdx in Bx.
  pose proof (digits2_pos_bounds mc) as Bc. rewrite Hdc in Bc.
  pose proof (digits2_pos_bounds (mx * mc)) as BX.
  assert (HX : Zpos (mx * mc) = A * (Zpos mc * len)) by (rewrite Pos2Z.inj_mul; lia).
  set (D := Zpos (digits2_pos (mx * mc))) in *.
  assert (HD : D = 105 \/ D = 106).
  { change (2 ^ (53 - 1)) with (2 ^ 52) in *.
    assert (2 ^ 52 * 2 ^ 52 <= Zpos (mx * mc) < 2 ^ 53 * 2 ^ 53)
      by (rewrite Pos2Z.inj_mul; nia).
    rewrite <- !Z.pow_add_r in H by lia. simpl Z.add in H.
    destruct (Z.le_gt_cases D 104).
    - assert (2 ^ D <= 2 ^ 104) by (apply Z.pow_le_mono_r; lia). lia.
    - destruct (Z.le_gt_cases 107 D); [ | lia].
      assert (2 ^ 106 <= 2 ^ (D - 1)) by (apply Z.pow_le_mono_r; lia). lia. }
  destruct (D - 53) as [ | n | n] eqn:En; try lia.
  assert (HDn : D = 53 + Zpos n) by lia.
  rewrite (round_aux_shift false (mx * mc) n) by (fold D; lia).
  set (S := 2 ^ (Zpos n - 53 + d)).
  set (K := 2 ^ (106 - d - Zpos n)).
  assert (HS : 0 < S) by (apply Z.pow_pos_nonneg; lia).
  assert (HKS : K * S = 2 ^ 53)
    by (unfold K, S; rewrite <- Z.pow_add_r by lia; f_equal; lia).
  assert (HAS : 2 ^ Zpos n = A * S)
    by (unfold A, S; rewrite <- Z.pow_add_r by lia; f_equal; lia).
  set (q := rne (Zpos (mx * mc)) (Zpos n)).
  assert (Hcore : q / K = rank_index P len).
  { unfold rank_index.
    apply (rank_core len S K q); try assumption.
    - rewrite HDn in BX.
      replace (53 + Zpos n - 1) with (Zpos n + 52) in BX by lia.
      replace (53 + Zpos n) with (Zpos n + 53) in BX at 2 by lia.
      rewrite !Z.pow_add_r, HAS, HX in BX by lia. nia.
    - pose proof (rne_near (Zpos (mx * mc)) (Zpos n) ltac:(lia)) as Hn.
      fold q in Hn. rewrite HAS, HX in Hn. nia. }
  assert (Hq : 2 ^ 52 <= q <= 2 * 2 ^ 52).
  { apply rne_bounds; try lia. rewrite HDn in BX.
    replace (53 + Zpos n - 1) with (Zpos n + 52) in BX by lia.
    replace (53 + Zpos n) with (Zpos n + 52 + 1) in BX by lia.
    rewrite pow2_succ in BX by lia. rewrite Z.pow_add_r in BX by lia. lia. }
  assert (HK : 2 <= K).
  { unfold K. change 2 with (2 ^ 1) at 1. apply Z.pow_le_mono_r; lia. }
  unfold int_of_float64.
  match goal with
  | |- context [trunc_float64 ?f] => assert (Htr : trunc_float64 f = q / K)
  end.
  { destruct (Z.eqb_spec q (2 ^ 53)) as [E | E].
    - rewrite trunc_finite_neg by lia. rewrite E.
      replace K with (2 * 2 ^ (- (d - 53 + -53 + Zpos n + 1))).
      + change (2 ^ 53) with (2 * Zpos (2 ^ 52)).
        rewrite Z.div_mul_cancel_l; [reflexivity | | lia].
        apply Z.pow_nonzero; lia.
      + rewrite <- pow2_succ by lia. unfold K. f_equal. lia.
    - rewrite trunc_finite_neg by lia. rewrite Z2Pos.id by lia.
      unfold K. f_equal. f_equal. lia. }
  rewrite Htr, Hcore.
  assert (0 <= rank_index P len < 2 ^ 53).
  { unfold rank_index. split; [apply Z.div_pos; nia | ].
    apply Z.div_lt_upper_bound; nia. }
  unfold int64_min, int64_max.
  destruct (Z.leb_spec (- 2 ^ 63) (rank_index P len)); [ | lia].
  destruct (Z.leb_spec (rank_index P len) (2 ^ 63 - 1)); [reflexivity | lia].
Qed.

End Rank.

Lemma pindex_c50 len : 1 <= len < 2 ^ 45 -> pindex c50 len = rank_index 50 len.
Proof. apply (pindex_rank _ 50 0); (reflexivity || lia). Qed.
Lemma pindex_c90 len : 1 <= len < 2 ^ 45 -> pindex c90 len = rank_index 90 len.
Proof. apply (pindex_rank _ 90 20); (reflexivity || lia). Qed.
Lemma pindex_c95 len : 1 <= len < 2 ^ 45 -> pindex c95 len = rank_index 95 len.
Proof. apply (pindex_rank _ 95 (-40)); (reflexivity || lia). Qed.
Lemma pindex_c99 len : 1 <= len < 2 ^ 45 -> pindex c99 len = rank_index 99 len.
Proof. apply (pindex_rank _ 99 (-8)); (reflexivity || lia). Qed.

End Binary64.

(** The constants are the correctly rounded quotients of their decimals. *)
Lemma constants_nearest :
  c50 = SFdiv 53 1024 (float64_of_int 50) (float64_of_int 100)
  /\ c90 = SFdiv 53 1024 (float64_of_int 90) (float64_of_int 100)
  /\ c95 = SFdiv 53 1024 (float64_of_int 95) (float64_of_int 100)
  /\ c99 = SFdiv 53 1024 (float64_of_int 99) (float64_of_int 100).
Proof. repeat split; vm_compute; reflexivity. Qed.

(** ** Wrap-around arithmetic *)

Lemma wrap64_small (z : Z) : - 2 ^ 63 <= z < 2 ^ 63 -> wrap64 z = z.
Proof.
  intro H. unfold wrap64. rewrite Z.mod_small; lia.
Qed.

Lemma wrap64_add_l (a b : Z) : wrap64 (wrap64 a + b) = wrap64 (a + b).
Proof.
  unfold wrap64.
  replace ((a + 2 ^ 63) mod 2 ^ 64 - 2 ^ 63 + b + 2 ^ 63)
    with ((a + 2 ^ 63) mod 2 ^ 64 + b) by ring.
  rewrite Zplus_mod_idemp_l. f_equal. f_equal. ring.
Qed.

(** ** The collector *)

Lemma collect_snoc (rs : list result) (r : result) :
  collect (rs ++ [r]) = collect_one (collect rs) r.
Proof. unfold collect, collect_from. rewrite fold_left_app. reflexivity. Qed.

Lemma durations_collect (rs : list result) :
  durations (collect rs) = map Duration rs.
Proof.
  induction rs as [ | r rs IH] using rev_ind; [reflexivity | ].
  rewrite collect_snoc, map_app. cbn [collect_one durations map].
  rewrite IH. reflexivity.
Qed.

Lemma totalRequests_collect_one (c : collector) (r : result) :
  totalRequests c = wrap64 (Z.of_nat (List.length (durations c))) ->
  totalRequests (collect_one c r)
  = wrap64 (Z.of_nat (List.length (durations (collect_one c r)))).
Proof.
  intro H. cbn [collect_one totalRequests durations].
  rewrite H, wrap64_add_l, length_app. cbn [List.length].
  f_equal. lia.
Qed.

Lemma totalRequests_collect (rs : list result) :
  totalRequests (collect rs) = wrap64 (Z.of_nat (List.length rs)).
Proof.
  induction rs as [ | r rs IH] using rev_ind; [reflexivity | ].
  rewrite collect_snoc, totalRequests_collect_one.
  - rewrite <- collect_snoc, durations_collect, length_map. reflexivity.
  - rewrite IH, durations_collect, length_map. reflexivity.
Qed.

Lemma count_failed_snoc (rs : list result) (r : result) :
  count_failed (rs ++ [r])
  = count_failed rs + (if is_failed r then 1 else 0).
Proof.
  unfold count_failed. rewrite filter_app, length_app. cbn [filter].
  destruct (is_failed r); cbn [List.length]; lia.
Qed.

Lemma count_ok_snoc (rs : list result) (r : result) :
  count_ok (rs ++ [r]) = count_ok rs + (if is_failed r then 0 else 1).
Proof.
  unfold count_ok. rewrite filter_app, length_app. cbn [filter].
  destruct (is_failed r); cbn [List.length negb]; lia.
Qed.

Lemma counts_partition (rs : list result) :
  count_ok rs + count_failed rs = Z.of_nat (List.length rs).
Proof.
  induction rs as [ | r rs IH] using rev_ind; [reflexivity | ].
  rewrite count_ok_snoc, count_failed_snoc, length_app. cbn [List.length].
  destruct (is_failed r); lia.
Qed.

Lemma failedCount_collect (rs : list result) :
  failedCount (collect rs) = wrap64 (count_failed rs).
Proof.
  induction rs as [ | r rs IH] using rev_ind; [reflexivity | ].
  rewrite collect_snoc, count_failed_snoc. cbn [collect_one failedCount].
  rewrite IH. destruct (is_failed r).
  - apply wrap64_add_l.
  - f_equal. lia.
Qed.

Lemma successCount_collect (rs : list result) :
  successCount (collect rs) = wrap64 (count_ok rs).
Proof.
  induction rs as [ | r rs IH] using rev_ind; [reflexivity | ].
  rewrite collect_snoc, count_ok_snoc. cbn [collect_one successCount].
  rewrite IH. destruct (is_failed r).
  - f_equal. lia.
  - apply wrap64_add_l.
Qed.

Lemma is_failed_iff (r : result) :
  is_failed r = true <-> (Error r <> None \/ 400 <= StatusCode r).
Proof.
  unfold is_failed. destruct (Error r) as [e | ].
  - split; [intros _; left; discriminate | reflexivity].
  - rewrite Z.leb_le. split; [right; assumption | intros [H | H]; congruence].
Qed.

Lemma list_min_snoc (d x : Z) (l : list Z) :
  list_min d (l ++ [x]) = Z.min (list_min d l) x.
Proof.
  revert d. induction l as [ | y l IH]; intro d; cbn [list_min app].
  - reflexivity.
  - rewrite IH. lia.
Qed.

Lemma list_max_snoc (d x : Z) (l : list Z) :
  list_max d (l ++ [x]) = Z.max (list_max d l) x.
Proof.
  revert d. induction l as [ | y l IH]; intro d; cbn [list_max app].
  - reflexivity.
  - rewrite IH. lia.
Qed.

Lemma minDuration_collect (rs : list result) :
  minDuration (collect rs) = list_min time_Hour (map Duration rs).
Proof.
  induction rs as [ | r rs IH] using rev_ind; [reflexivity | ].
  rewrite collect_snoc, map_app. cbn [map]. rewrite list_min_snoc.
  cbn [collect_one minDuration].
  rewrite IH. destruct (Z.ltb_spec (Duration r) (list_min time_Hour (map Duration rs))); lia.
Qed.

Lemma maxDuration_collect (rs : list result) :
  maxDuration (collect rs) = list_max 0 (map Duration rs).
Proof.
  induction rs as [ | r rs IH] using rev_ind; [reflexivity | ].
  rewrite collect_snoc, map_app. cbn [map]. rewrite list_max_snoc.
  cbn [collect_one maxDuration].
  rewrite IH. destruct (Z.ltb_spec (list_max 0 (map Duration rs)) (Duration r)); lia.
Qed.

Lemma list_min_le (d : Z) (l : list Z) (x : Z) :
  In x (d :: l) -> list_min d l <= x.
Proof.
  revert d. induction l as [ | y l IH]; intros d Hin; cbn [list_min].
  - destruct Hin as [-> | []]. lia.
  - destruct Hin as [-> | Hin]; [lia | ].
    specialize (IH y Hin). lia.
Qed.

Lemma list_max_ge (d : Z) (l : list Z) (x : Z) :
  In x (d :: l) -> x <= list_max d l.
Proof.
  revert d. induction l as [ | y l IH]; intros d Hin; cbn [list_max].
  - destruct Hin as [-> | []]. lia.
  - destruct Hin as [-> | Hin]; [lia | ].
    specialize (IH y Hin). lia.
Qed.

(** ** [slices.Sort] *)

Lemma insert_sorted_perm (x : Z) (l : list Z) :
  Permutation (x :: l) (insert_sorted x l).
Proof.
  induction l as [ | y l IH]; cbn [insert_sorted]; [reflexivity | ].
  destruct (x <=? y); [reflexivity | ].
  rewrite perm_swap. apply perm_skip, IH.
Qed.

Lemma slices_Sort_perm (l : list Z) : Permutation l (slices_Sort l).
Proof.
  induction l as [ | x l IH]; cbn; [constructor | ].
  rewrite <- insert_sorted_perm. apply perm_skip, IH.
Qed.

Lemma insert_sorted_sorted (x : Z) (l : list Z) :
  StronglySorted Z.le l -> StronglySorted Z.le (insert_sorted x l).
Proof.
  induction 1 as [ | y l Hs IH Hall]; cbn [insert_sorted].
  - repeat constructor.
  - destruct (Z.leb_spec x y).
    + constructor; [constructor; assumption | ].
      constructor; [assumption | ].
      eapply Forall_impl; [ | exact Hall]. intros; lia.
    + constructor; [assumption | ].
      apply (Permutation_Forall (insert_sorted_perm x l)).
      constructor; [lia | assumption].
Qed.

Lemma slices_Sort_sorted (l : list Z) : StronglySorted Z.le (slices_Sort l).
Proof.
  induction l as [ | x l IH]; cbn; [constructor | ].
  apply insert_sorted_sorted, IH.
Qed.

Lemma slices_Sort_length (l : list Z) :
  List.length (slices_Sort l) = List.length l.
Proof. symmetry. apply Permutation_length, slices_Sort_perm. Qed.

Lemma sorted_nth_error_le (s : list Z) (i j : nat) (a b : Z) :
  StronglySorted Z.le s -> (i <= j)%nat ->
  nth_error s i = Some a -> nth_error s j = Some b -> a <= b.
Proof.
  intro Hs. revert i j. induction Hs as [ | x s Hs IH Hall]; intros i j Hij Hi Hj.
  - destruct i; discriminate.
  - destruct i as [ | i]; destruct j as [ | j]; cbn in Hi, Hj.
    + injection Hi as <-. injection Hj as <-. lia.
    + injection Hi as <-. apply nth_error_In in Hj.
      rewrite Forall_forall in Hall. apply Hall, Hj.
    + lia.
    + apply (IH i j); [lia | assumption..].
Qed.

(** ** Classification and counts *)

(** C4: an outcome counts as failed exactly when its error is set or its
    status code is at least 400, and as successful otherwise; the two
    counters add up to the number of outcomes collected. *)
Theorem classification_partitions_total (rs : list result) :
  Z.of_nat (List.length rs) < 2 ^ 63 ->
  (forall r, is_failed r = true <-> (Error r <> None \/ 400 <= StatusCode r))
  /\ failedCount (collect rs) = count_failed rs
  /\ successCount (collect rs) = count_ok rs
  /\ totalRequests (collect rs) = Z.of_nat (List.length rs)
  /\ successCount (collect rs) + failedCount (collect rs)
     = totalRequests (collect rs).
Proof.
  intro Hlen.
  pose proof (counts_partition rs) as Hpart.
  assert (Hf : 0 <= count_failed rs) by (unfold count_failed; lia).
  assert (Hs : 0 <= count_ok rs) by (unfold count_ok; lia).
  rewrite failedCount_collect, successCount_collect, totalRequests_collect.
  rewrite !wrap64_small by lia.
  repeat split; try lia; apply is_failed_iff.
Qed.

Lemma classification_partitions_total_witness :
  successCount (collect [mkResult 200 5 10 None; mkResult 0 7 0 (Some "refused"%string);
                         mkResult 404 3 2 None])
  + failedCount (collect [mkResult 200 5 10 None; mkResult 0 7 0 (Some "refused"%string);
                          mkResult 404 3 2 None])
  = totalRequests (collect [mkResult 200 5 10 None; mkResult 0 7 0 (Some "refused"%string);
                            mkResult 404 3 2 None]).
Proof.
  apply (classification_partitions_total
           [mkResult 200 5 10 None; mkResult 0 7 0 (Some "refused"%string);
            mkResult 404 3 2 None]).
  vm_compute. reflexivity.
Defined.

(** ** Minimum and maximum latency *)

(** C8, as stated, fails: a single outcome that took two hours is reported
    with a minimum of one hour, the initial value of [minDuration]. *)
Lemma min_duration_two_hours :
  minimum (map Duration [mkResult 200 (2 * time_Hour) 0 None])
    = Some (2 * time_Hour)
  /\ minDuration (collect [mkResult 200 (2 * time_Hour) 0 None]) = time_Hour
  /\ Some (minDuration (collect [mkResult 200 (2 * time_Hour) 0 None]))
     <> minimum (map Duration [mkResult 200 (2 * time_Hour) 0 None]).
Proof. vm_compute. repeat split; discriminate. Qed.

(** C8, amended: with at least one outcome, the reported maximum is the
    larger of zero and the maximum of the collected durations, and the
    reported minimum is the smaller of one hour and their minimum; they are
    the maximum and the minimum themselves when no duration is negative and
    some duration is at most one hour. *)
Theorem min_max_reported (rs : list result) :
  rs <> [] ->
  exists m M,
    minimum (map Duration rs) = Some m
    /\ maximum (map Duration rs) = Some M
    /\ minDuration (collect rs) = Z.min time_Hour m
    /\ maxDuration (collect rs) = Z.max 0 M
    /\ (m <= time_Hour -> minDuration (collect rs) = m)
    /\ (0 <= M -> maxDuration (collect rs) = M).
Proof.
  intro Hne. destruct rs as [ | r rs]; [congruence | ].
  exists (list_min (Duration r) (map Duration rs)),
         (list_max (Duration r) (map Duration rs)).
  rewrite minDuration_collect, maxDuration_collect.
  cbn [map minimum maximum list_min list_max].
  repeat split; lia.
Qed.

Lemma min_max_reported_witness :
  exists m M,
    minimum (map Duration [mkResult 200 5 10 None; mkResult 200 3 10 None]) = Some m
    /\ maximum (map Duration [mkResult 200 5 10 None; mkResult 200 3 10 None]) = Some M
    /\ minDuration (collect [mkResult 200 5 10 None; mkResult 200 3 10 None])
       = Z.min time_Hour m
    /\ maxDuration (collect [mkResult 200 5 10 None; mkResult 200 3 10 None])
       = Z.max 0 M
    /\ (m <= time_Hour ->
        minDuration (collect [mkResult 200 5 10 None; mkResult 200 3 10 None]) = m)
    /\ (0 <= M ->
        maxDuration (collect [mkResult 200 5 10 None; mkResult 200 3 10 None]) = M).
Proof.
  apply (min_max_reported [mkResult 200 5 10 None; mkResult 200 3 10 None]).
  discriminate.
Defined.

(** ** Percentiles *)

Lemma rank_index_bounds (p n : Z) :
  0 <= p <= 99 -> 1 <= n -> 0 <= rank_index p n < n.
Proof.
  intros Hp Hn. unfold rank_index. split.
  - apply Z.div_pos; nia.
  - apply Z.div_lt_upper_bound; nia.
Qed.

Lemma rank_index_mono (p q n : Z) :
  p <= q -> 0 <= n -> rank_index p n <= rank_index q n.
Proof.
  intros Hpq Hn. unfold rank_index. apply Z.div_le_mono; nia.
Qed.

Lemma index_at_in_range (s : list Z) (i : Z) :
  0 <= i < Z.of_nat (List.length s) ->
  exists a, index_at s i = Some a /\ nth_error s (Z.to_nat i) = Some a.
Proof.
  intro Hi. unfold index_at.
  destruct (Z.ltb_spec i 0); [lia | ].
  destruct (Z.leb_spec (Z.of_nat (List.length s)) i); [lia | ].
  cbn [orb].
  destruct (nth_error s (Z.to_nat i)) as [a | ] eqn:E.
  - exists a. split; reflexivity.
  - apply nth_error_None in E. lia.
Qed.

(** The shape of the percentile computation on a non-empty slice. *)
Lemma compute_percentiles_spec (ds : list Z) :
  ds <> [] -> Z.of_nat (List.length ds) < max_durations ->
  exists a b c d,
    compute_percentiles ds = Some (mkPercentiles a b c d)
    /\ nth_error (slices_Sort ds)
         (Z.to_nat (rank_index 50 (Z.of_nat (List.length ds)))) = Some a
    /\ nth_error (slices_Sort ds)
         (Z.to_nat (rank_index 90 (Z.of_nat (List.length ds)))) = Some b
    /\ nth_error (slices_Sort ds)
         (Z.to_nat (rank_index 95 (Z.of_nat (List.length ds)))) = Some c
    /\ nth_error (slices_Sort ds)
         (Z.to_nat (rank_index 99 (Z.of_nat (List.length ds)))) = Some d.
Proof.
  intros Hne Hlen. unfold max_durations in Hlen.
  assert (Hn : 1 <= Z.of_nat (List.length ds))
    by (destruct ds; [congruence | cbn [List.length]; lia]).
  set (n := Z.of_nat (List.length ds)) in *.
  assert (Hsl : Z.of_nat (List.length (slices_Sort ds)) = n)
    by (rewrite slices_Sort_length; reflexivity).
  unfold compute_percentiles. fold n.
  destruct (Z.ltb_spec 0 n); [ | lia].
  rewrite pindex_c50, pindex_c90, pindex_c95, pindex_c99 by lia.
  destruct (index_at_in_range (slices_Sort ds) (rank_index 50 n)) as (a & Ha & Na);
    [rewrite Hsl; apply rank_index_bounds; lia | ].
  destruct (index_at_in_range (slices_Sort ds) (rank_index 90 n)) as (b & Hb & Nb);
    [rewrite Hsl; apply rank_index_bounds; lia | ].
  destruct (index_at_in_range (slices_Sort ds) (rank_index 95 n)) as (c & Hc & Nc);
    [rewrite Hsl; apply rank_index_bounds; lia | ].
  destruct (index_at_in_range (slices_Sort ds) (rank_index 99 n)) as (d & Hd & Nd);
    [rewrite Hsl; apply rank_index_bounds; lia | ].
  exists a, b, c, d. rewrite Ha, Hb, Hc, Hd. auto.
Qed.

(** C2: on a non-empty slice of durations, sorted ascending, the four
    percentiles are the elements at the zero-based indices
    [floor(0.50*len)], [floor(0.90*len)], [floor(0.95*len)] and
    [floor(0.99*len)], and each index is within bounds. *)
Theorem percentiles_nearest_rank (ds : list Z) :
  ds <> [] -> Z.of_nat (List.length ds) < max_durations ->
  let n := Z.of_nat (List.length ds) in
  let sorted := slices_Sort ds in
  StronglySorted Z.le sorted /\ Permutation ds sorted
  /\ pindex c50 n = 50 * n / 100 /\ pindex c90 n = 90 * n / 100
  /\ pindex c95 n = 95 * n / 100 /\ pindex c99 n = 99 * n / 100
  /\ 0 <= 50 * n / 100 < n /\ 0 <= 90 * n / 100 < n
  /\ 0 <= 95 * n / 100 < n /\ 0 <= 99 * n / 100 < n
  /\ exists a b c d,
       compute_percentiles ds = Some (mkPercentiles a b c d)
       /\ nth_error sorted (Z.to_nat (50 * n / 100)) = Some a
       /\ nth_error sorted (Z.to_nat (90 * n / 100)) = Some b
       /\ nth_error sorted (Z.to_nat (95 * n / 100)) = Some c
       /\ nth_error sorted (Z.to_nat (99 * n / 100)) = Some d.
Proof.
  intros Hne Hlen n sorted.
  assert (Hn : 1 <= n)
    by (subst n; destruct ds; [congruence | cbn [List.length]; lia]).
  assert (Hb : n < 2 ^ 45) by exact Hlen.
  split; [apply slices_Sort_sorted | ].
  split; [apply slices_Sort_perm | ].
  split; [apply pindex_c50; lia | ].
  split; [apply pindex_c90; lia | ].
  split; [apply pindex_c95; lia | ].
  split; [apply pindex_c99; lia | ].
  split; [apply (rank_index_bounds 50); lia | ].
  split; [apply (rank_index_bounds 90); lia | ].
  split; [apply (rank_index_bounds 95); lia | ].
  split; [apply (rank_index_bounds 99); lia | ].
  exact (compute_percentiles_spec ds Hne Hlen).
Qed.

Lemma percentiles_nearest_rank_witness :
  compute_percentiles [30; 10; 20] = Some (mkPercentiles 20 30 30 30).
Proof.
  destruct (percentiles_nearest_rank [30; 10; 20])
    as (_ & _ & _ & _ & _ & _ & _ & _ & _ & _ & a & b & c & d & H & Ha & Hb & Hc & Hd).
  - discriminate.
  - vm_compute. reflexivity.
  - vm_compute in Ha, Hb, Hc, Hd. congruence.
Defined.

(** C9: on a non-empty set of durations the reported statistics are ordered:
    [min <= p50 <= p90 <= p95 <= p99 <= max]. *)
Theorem percentiles_monotone (rs : list result) :
  rs <> [] -> Z.of_nat (List.length rs) < max_durations ->
  exists ps,
    compute_percentiles (durations (collect rs)) = Some ps
    /\ minDuration (collect rs) <= p50 ps
    /\ p50 ps <= p90 ps /\ p90 ps <= p95 ps /\ p95 ps <= p99 ps
    /\ p99 ps <= maxDuration (collect rs).
Proof.
  intros Hne Hlen. rewrite durations_collect.
  set (ds := map Duration rs).
  assert (Hds : ds <> []) by (subst ds; destruct rs; [congruence | discriminate]).
  assert (Hl : List.length ds = List.length rs) by (apply length_map).
  assert (Hn : 1 <= Z.of_nat (List.length ds))
    by (destruct ds; [congruence | cbn [List.length]; lia]).
  destruct (compute_percentiles_spec ds Hds ltac:(rewrite Hl; exact Hlen))
    as (a & b & c & d & Hc & Na & Nb & Nc & Nd).
  exists (mkPercentiles a b c d). cbn [p50 p90 p95 p99].
  pose proof (slices_Sort_sorted ds) as Hs.
  pose proof (rank_index_bounds 50 _ ltac:(lia) Hn) as B50.
  pose proof (rank_index_mono 50 90 (Z.of_nat (List.length ds)) ltac:(lia) ltac:(lia)).
  pose proof (rank_index_mono 90 95 (Z.of_nat (List.length ds)) ltac:(lia) ltac:(lia)).
  pose proof (rank_index_mono 95 99 (Z.of_nat (List.length ds)) ltac:(lia) ltac:(lia)).
  assert (Hin : forall i v, nth_error (slices_Sort ds) i = Some v -> In v ds).
  { intros i v Hv. apply nth_error_In in Hv.
    apply (Permutation_in v (Permutation_sym (slices_Sort_perm ds)) Hv). }
  rewrite minDuration_collect, maxDuration_collect. fold ds.
  split; [exact Hc | ].
  split; [apply list_min_le; right; apply (Hin _ _ Na) | ].
  split; [eapply (sorted_nth_error_le _ _ _ _ _ Hs); [ | exact Na | exact Nb]; lia | ].
  split; [eapply (sorted_nth_error_le _ _ _ _ _ Hs); [ | exact Nb | exact Nc]; lia | ].
  split; [eapply (sorted_nth_error_le _ _ _ _ _ Hs); [ | exact Nc | exact Nd]; lia | ].
  apply list_max_ge; right; apply (Hin _ _ Nd).
Qed.

Lemma percentiles_monotone_witness :
  [mkResult 200 30 1 None; mkResult 200 10 1 None; mkResult 500 20 1 None] <> []
  /\ exists ps,
       compute_percentiles
         (durations (collect [mkResult 200 30 1 None; mkResult 200 10 1 None;
                              mkResult 500 20 1 None])) = Some ps
       /\ minDuration (collect [mkResult 200 30 1 None; mkResult 200 10 1 None;
                                mkResult 500 20 1 None]) <= p50 ps
       /\ p50 ps <= p90 ps /\ p90 ps <= p95 ps /\ p95 ps <= p99 ps
       /\ p99 ps <= maxDuration (collect [mkResult 200 30 1 None;
                                          mkResult 200 10 1 None;
                                          mkResult 500 20 1 None]).
Proof.
  split; [discriminate | ].
  apply (percentiles_monotone
           [mkResult 200 30 1 None; mkResult 200 10 1 None; mkResult 500 20 1 None]).
  - discriminate.
  - vm_compute. reflexivity.
Defined.

(** Beyond the address space the product rounds away from the rank: the
    bound on the length is needed. *)
Remark pindex_beyond_address_space :
  pindex c99 142159079146801 = 140737488355333
  /\ rank_index 99 142159079146801 = 140737488355332.
Proof. split; vm_compute; reflexivity. Qed.

Example pindex_small :
  map (pindex c90) [1; 2; 3; 10; 100] = [0; 1; 2; 9; 90]
  /\ map (pindex c99) [1; 2; 3; 10; 100] = [0; 1; 2; 9; 99].
Proof. split; vm_compute; reflexivity. Qed.

(** ** Two scenarios *)

(** Ten requests answered with status 200 and 100 bytes in 10 ms each. *)
Example scenario_ten_successes :
  build_report
    (collect (repeat (mkResult 200 (10 * time_Millisecond) 100 None) 10))
    (150 * time_Millisecond)
  = Some (mkReport 150000000 10 10 0 (mkRatio 10 150000000)
            (Some (mkLatency 10000000 10000000 10000000
                     (mkPercentiles 10000000 10000000 10000000 10000000)
                     (Some (mkRatio 1000 150000000)) (mkRatio 10 10)))).
Proof. vm_compute. reflexivity. Qed.

(** Five requests, two of which fail in transport. *)
Example scenario_two_errors :
  let c := collect [mkResult 200 5 1 None; mkResult 0 7 0 (Some "refused"%string);
                    mkResult 200 5 1 None; mkResult 0 7 0 (Some "timeout"%string);
                    mkResult 200 6 1 None] in
  (totalRequests c, successCount c, failedCount c) = (5, 3, 2).
Proof. vm_compute. reflexivity. Qed.

(** ** One request *)

Lemma attempt_failure (x : exchange) (e : error) (t0 : Z) :
  request_fails x = Some e ->
  StatusCode (fst (attempt x t0)) = 0
  /\ Bytes (fst (attempt x t0)) = 0
  /\ Error (fst (attempt x t0)) = Some e.
Proof.
  unfold request_fails, attempt, bind, NewRequestWithContext, client_Do,
    time_Now, time_Since, elapse, ret, bind.
  destruct (build_error x) as [e1 | ]; cbn.
  - intro H. injection H as <-. auto.
  - destruct (do_error x) as [e2 | ]; cbn; [ | discriminate].
    intro H. injection H as <-. auto.
Qed.

Lemma attempt_success (x : exchange) (t0 : Z) :
  request_fails x = None ->
  attempt x t0
  = (mkResult (do_status x) (saturate64 (elapsed_to_response x)) (body_len x) None,
     t0 + elapsed_to_body_read x).
Proof.
  unfold request_fails, attempt, bind, NewRequestWithContext, client_Do,
    io_ReadAll, time_Now, time_Since, elapse, ret, bind,
    elapsed_to_response, elapsed_to_body_read.
  destruct (build_error x) as [e1 | ]; [discriminate | ].
  destruct (do_error x) as [e2 | ]; [discriminate | ].
  intros _. cbn. f_equal; [ | ring]. f_equal. f_equal. ring.
Qed.

(** C6, as stated, fails: for a request answered after 5 ms whose body takes
    7 more ms to read, the body is fully read 12.001 ms after the request was
    issued, and the outcome records 5.001 ms. *)
Lemma duration_excludes_body_read :
  request_fails (mkExchange None 1000 None 200 5000000 100 7000000) = None
  /\ snd (attempt (mkExchange None 1000 None 200 5000000 100 7000000) 0) - 0
     = elapsed_to_body_read (mkExchange None 1000 None 200 5000000 100 7000000)
  /\ elapsed_to_body_read (mkExchange None 1000 None 200 5000000 100 7000000)
     = 12001000
  /\ Duration (fst (attempt (mkExchange None 1000 None 200 5000000 100 7000000) 0))
     = 5001000
  /\ Duration (fst (attempt (mkExchange None 1000 None 200 5000000 100 7000000) 0))
     <> elapsed_to_body_read (mkExchange None 1000 None 200 5000000 100 7000000).
Proof. vm_compute. repeat split; discriminate. Qed.

(** C6, amended: for a request that completes successfully, [Duration] is
    the time from the request being issued to the return of [client.Do]; it
    is taken before the body is read and does not depend on how long the
    read takes. *)
Theorem duration_measures_response (x : exchange) (t0 : Z) :
  request_fails x = None ->
  Duration (fst (attempt x t0)) = saturate64 (elapsed_to_response x)
  /\ StatusCode (fst (attempt x t0)) = do_status x
  /\ Bytes (fst (attempt x t0)) = body_len x
  /\ Error (fst (attempt x t0)) = None
  /\ forall ns : Z,
       Duration (fst (attempt (mkExchange (build_error x) (build_ns x)
                                 (do_error x) (do_status x) (do_ns x)
                                 (body_len x) ns) t0))
       = Duration (fst (attempt x t0)).
Proof.
  intro Hok. rewrite (attempt_success x t0 Hok). cbn [fst Duration StatusCode Bytes Error].
  repeat split. intro ns.
  rewrite attempt_success by exact Hok. reflexivity.
Qed.

Lemma duration_measures_response_witness :
  request_fails (mkExchange None 1000 None 200 5000000 100 7000000) = None
  /\ Duration (fst (attempt (mkExchange None 1000 None 200 5000000 100 7000000) 0))
     = saturate64
         (elapsed_to_response (mkExchange None 1000 None 200 5000000 100 7000000)).
Proof.
  split; [reflexivity | ].
  apply (duration_measures_response
           (mkExchange None 1000 None 200 5000000 100 7000000) 0).
  reflexivity.
Defined.

(** ** The entry guard *)

Lemma Test_entry_usage (site : string) (count_p count_r : Z) :
  Test_entry site count_p count_r = Usage
  <-> (site = ""%string \/ count_p = 0 \/ count_r = 0).
Proof.
  unfold Test_entry, make_chan.
  destruct (String.eqb_spec site "") as [Hs | Hs];
    destruct (Z.eqb_spec count_p 0) as [Hp | Hp];
    destruct (Z.eqb_spec count_r 0) as [Hr | Hr]; cbn [orb];
    try (split; [auto | reflexivity]).
  destruct (count_r <? 0); split; try discriminate; intros [H | [H | H]]; contradiction.
Qed.

(** C10, as stated, fails on where the run panics: with a negative
    [count_r] the capacity of the [results] channel, created first, is
    already negative, and the creation of [jobs] is not reached. *)
Lemma negative_count_panics_before_jobs :
  Test_entry "localhost" 2 (-1) = Panics ResultsChan
  /\ Test_entry "localhost" 2 (-1) <> Panics JobsChan.
Proof. vm_compute. split; [reflexivity | discriminate]. Qed.

(** C10, amended: the guard rejects only an empty [site], [count_p = 0] and
    [count_r = 0]; for every negative [count_r] (with the other two
    accepted) the guard passes and the run panics when the [results]
    channel is created with a negative capacity, instead of returning with
    the usage message. *)
Theorem negative_count_panics (site : string) (count_p count_r : Z) :
  site <> ""%string -> count_p <> 0 -> count_r < 0 ->
  Test_entry site count_p count_r = Panics ResultsChan
  /\ Test_entry site count_p count_r <> Usage
  /\ forall s p r,
       Test_entry s p r = Usage <-> (s = ""%string \/ p = 0 \/ r = 0).
Proof.
  intros Hs Hp Hr.
  assert (E : Test_entry site count_p count_r = Panics ResultsChan).
  { unfold Test_entry, make_chan.
    destruct (String.eqb_spec site ""); [contradiction | ].
    destruct (Z.eqb_spec count_p 0); [contradiction | ].
    destruct (Z.eqb_spec count_r 0); [lia | ].
    destruct (Z.ltb_spec count_r 0); [reflexivity | lia]. }
  split; [exact E | ]. split; [rewrite E; discriminate | ].
  apply Test_entry_usage.
Qed.

Lemma negative_count_panics_witness :
  Test_entry "localhost" 2 (-5) = Panics ResultsChan.
Proof.
  apply (negative_count_panics "localhost" 2 (-5)).
  - discriminate.
  - discriminate.
  - reflexivity.
Defined.

(** ** The transition system *)

Section Pool.

Local Open Scope nat_scope.

Lemma nth_error_upd_same (ws : list wstate) (i : nat) (v w : wstate) :
  nth_error ws i = Some v -> nth_error (upd i w ws) i = Some w.
Proof.
  revert i. induction ws as [ | u ws IH]; intros [ | i] H; cbn in *;
    try discriminate; auto.
Qed.

Lemma nth_error_upd_other (ws : list wstate) (i j : nat) (w : wstate) :
  i <> j -> nth_error (upd i w ws) j = nth_error ws j.
Proof.
  revert i j. induction ws as [ | u ws IH]; intros [ | i] [ | j] H; cbn;
    try reflexivity; try congruence.
  apply IH. congruence.
Qed.

Lemma length_upd (ws : list wstate) (i : nat) (w : wstate) :
  List.length (upd i w ws) = List.length ws.
Proof.
  revert i. induction ws as [ | u ws IH]; intros [ | i]; cbn; auto.
Qed.

Lemma total_of_upd (f : wstate -> nat) (ws : list wstate) (i : nat) (v w : wstate) :
  nth_error ws i = Some v ->
  total_of f (upd i w ws) + f v = total_of f ws + f w.
Proof.
  revert i.
  induction ws as [ | u ws IH]; intros [ | i] H; cbn in *; try discriminate.
  - injection H as ->. lia.
  - specialize (IH i H). lia.
Qed.

Lemma total_of_ge (f : wstate -> nat) (ws : list wstate) (i : nat) (v : wstate) :
  nth_error ws i = Some v -> f v <= total_of f ws.
Proof.
  revert i.
  induction ws as [ | u ws IH]; intros [ | i] H; cbn in *; try discriminate.
  - injection H as ->. lia.
  - specialize (IH i H). lia.
Qed.

Lemma all_exited_pending (ws : list wstate) :
  forallb is_exited ws = true -> total_of pending ws = 0.
Proof.
  induction ws as [ | u ws IH]; cbn; [reflexivity | ].
  intro H. apply andb_prop in H as [Hu Hws].
  destruct u; try discriminate. cbn. auto.
Qed.

Lemma not_all_exited (ws : list wstate) :
  forallb is_exited ws = false ->
  exists i w, nth_error ws i = Some w /\ w <> Exited.
Proof.
  induction ws as [ | u ws IH]; cbn; [discriminate | ].
  intro H. apply andb_false_iff in H as [H | H].
  - exists 0, u. split; [reflexivity | ]. intros ->. discriminate.
  - destruct (IH H) as (i & w & Hi & Hw). exists (S i), w. auto.
Qed.

Lemma existsb_exited_upd (ws : list wstate) (i : nat) (w : wstate) :
  existsb is_exited (upd i w ws) = true ->
  w = Exited \/ existsb is_exited ws = true.
Proof.
  revert i. induction ws as [ | u ws IH]; intros [ | i]; cbn; auto.
  - intro H. apply orb_prop in H as [H | H].
    + destruct w; try discriminate. auto.
    + right. rewrite H. apply orb_true_r.
  - intro H. apply orb_prop in H as [H | H].
    + right. rewrite H. reflexivity.
    + destruct (IH i H) as [-> | H']; auto.
      right. rewrite H'. apply orb_true_r.
Qed.

Lemma all_exited_exists (ws : list wstate) :
  ws <> [] -> forallb is_exited ws = true -> existsb is_exited ws = true.
Proof.
  destruct ws as [ | u ws]; [congruence | ]. cbn. intros _ H.
  apply andb_prop in H as [-> _]. reflexivity.
Qed.

(** Every step lowers the potential: a schedule is finite. *)
Lemma step_potential (l : label) (s s' : state) :
  exec_step l s = Some s' -> potential s' < potential s.
Proof.
  unfold potential.
  destruct l as [i | i | i | i | i t0 x | | | | ]; cbn [exec_step].
  - destruct (nth_error (workers s) i) as [[ | | | ] | ] eqn:E; try discriminate.
    destruct (jobs s) as [ | n] eqn:J; try discriminate.
    intro H. injection H as <-. cbn.
    pose proof (total_of_upd weight _ _ _ AtSelect E). cbn in *. lia.
  - destruct (nth_error (workers s) i) as [[ | | | ] | ] eqn:E; try discriminate.
    destruct (jobs s) as [ | n] eqn:J; try discriminate.
    intro H. injection H as <-. cbn.
    pose proof (total_of_upd weight _ _ _ Exited E). cbn in *. lia.
  - destruct (nth_error (workers s) i) as [[ | | | ] | ] eqn:E; try discriminate.
    destruct (cancelled s) eqn:C; try discriminate.
    intro H. injection H as <-. cbn. rewrite C.
    pose proof (total_of_upd weight _ _ _ Exited E). cbn in *. lia.
  - destruct (nth_error (workers s) i) as [[ | | | ] | ] eqn:E; try discriminate.
    destruct (cancelled s) eqn:C; try discriminate.
    intro H. injection H as <-. cbn. rewrite C.
    pose proof (total_of_upd weight _ _ _ InFlight E). cbn in *. lia.
  - destruct (nth_error (workers s) i) as [[ | | | ] | ] eqn:E; try discriminate.
    destruct (List.length (results s) <? results_cap s); try discriminate.
    intro H. injection H as <-. cbn. rewrite length_app. cbn.
    pose proof (total_of_upd weight _ _ _ AtRange E). cbn in *. lia.
  - destruct (cancelled s) eqn:C; try discriminate.
    intro H. injection H as <-. cbn. lia.
  - destruct (forallb is_exited (workers s) && negb (results_closed s)) eqn:C;
      try discriminate.
    apply andb_prop in C as [_ C]. destruct (results_closed s); try discriminate.
    intro H. injection H as <-. cbn. lia.
  - destruct (results s) as [ | r rest] eqn:R; try discriminate.
    destruct (collecting s) eqn:C; try discriminate.
    intro H. injection H as <-. cbn. lia.
  - destruct (results s) as [ | r rest] eqn:R; try discriminate.
    destruct (results_closed s && collecting s) eqn:C; try discriminate.
    apply andb_prop in C as [C1 C2]. rewrite C1, C2.
    intro H. injection H as <-. cbn. lia.
Qed.

Lemma run_potential (tr : list label) (s s' : state) :
  run tr s = Some s' -> List.length tr + potential s' <= potential s.
Proof.
  revert s. induction tr as [ | l tr IH]; intros s H; cbn [run List.length] in *.
  - injection H as <-. lia.
  - destruct (exec_step l s) as [s1 | ] eqn:E; [ | discriminate].
    pose proof (step_potential _ _ _ E). specialize (IH _ H). lia.
Qed.

Lemma all_exited_nth (ws : list wstate) (i : nat) (w : wstate) :
  forallb is_exited ws = true -> nth_error ws i = Some w -> w = Exited.
Proof.
  intros H E. rewrite forallb_forall in H.
  specialize (H w (nth_error_In _ _ E)). destruct w; try discriminate.
  reflexivity.
Qed.

Lemma pool_inv_init (count_p count_r : Z) :
  pool_inv (Z.to_nat count_r) (Z.to_nat count_p) (init_state count_p count_r).
Proof.
  unfold pool_inv, init_state. cbn.
  assert (Hp : forall n, total_of pending (repeat AtRange n) = 0)
    by (induction n; cbn; auto).
  assert (He : forall n, existsb is_exited (repeat AtRange n) = false)
    by (induction n; cbn; auto).
  rewrite Hp, He, repeat_length.
  repeat split; try lia; try discriminate.
Qed.

Lemma pool_inv_step (N P : nat) (l : label) (s s' : state) :
  pool_inv N P s -> is_interrupt l = false -> exec_step l s = Some s' ->
  pool_inv N P s'.
Proof.
  intros (Hc & Hsum & Hcap & Hlen & Htot & Hend & Hcl & Hex) Hl.
  assert (Hopen : forall i w, nth_error (workers s) i = Some w -> w <> Exited ->
                              results_closed s = false /\ collecting s = true).
  { intros i w E Hw.
    assert (results_closed s = false).
    { destruct (results_closed s); [ | reflexivity].
      elim Hw. apply (all_exited_nth _ _ _ (Hcl eq_refl) E). }
    split; [assumption | ].
    destruct (collecting s); [reflexivity | ].
    destruct (Hend eq_refl). congruence. }
  unfold pool_inv.
  destruct l as [i | i | i | i | i t0 x | | | | ]; cbn [exec_step];
    try discriminate.
  - destruct (nth_error (workers s) i) as [[ | | | ] | ] eqn:E; try discriminate.
    destruct (jobs s) as [ | n] eqn:J; try discriminate.
    intro H. injection H as <-. cbn.
    pose proof (total_of_upd pending _ _ _ AtSelect E) as Hp. cbn in Hp.
    destruct (Hopen _ _ E ltac:(discriminate)) as [Ho1 Ho2].
    rewrite length_upd.
    repeat split; try assumption; try lia; try congruence.
    + intro H. apply existsb_exited_upd in H as [H | H]; [discriminate | ].
      specialize (Hex H). discriminate.
  - destruct (nth_error (workers s) i) as [[ | | | ] | ] eqn:E; try discriminate.
    destruct (jobs s) as [ | n] eqn:J; try discriminate.
    intro H. injection H as <-. cbn.
    pose proof (total_of_upd pending _ _ _ Exited E) as Hp. cbn in Hp.
    destruct (Hopen _ _ E ltac:(discriminate)) as [Ho1 Ho2].
    rewrite length_upd.
    repeat split; try assumption; try lia; try congruence.
  - destruct (nth_error (workers s) i) as [[ | | | ] | ] eqn:E; try discriminate.
    rewrite Hc. discriminate.
  - destruct (nth_error (workers s) i) as [[ | | | ] | ] eqn:E; try discriminate.
    rewrite Hc. intro H. injection H as <-. cbn.
    pose proof (total_of_upd pending _ _ _ InFlight E) as Hp. cbn in Hp.
    destruct (Hopen _ _ E ltac:(discriminate)) as [Ho1 Ho2].
    rewrite length_upd.
    repeat split; try assumption; try lia; try congruence.
    + intro H. apply existsb_exited_upd in H as [H | H]; [discriminate | ].
      apply Hex, H.
  - destruct (nth_error (workers s) i) as [[ | | | ] | ] eqn:E; try discriminate.
    destruct (List.length (results s) <? results_cap s)%nat; try discriminate.
    intro H. injection H as <-. cbn.
    pose proof (total_of_upd pending _ _ _ AtRange E) as Hp. cbn in Hp.
    destruct (Hopen _ _ E ltac:(discriminate)) as [Ho1 Ho2].
    rewrite length_upd, length_app. cbn.
    repeat split; try assumption; try lia; try congruence.
    + intro H. apply existsb_exited_upd in H as [H | H]; [discriminate | ].
      apply Hex, H.
  - destruct (forallb is_exited (workers s) && negb (results_closed s)) eqn:C;
      try discriminate.
    apply andb_prop in C as [C1 C2].
    intro H. injection H as <-. cbn.
    repeat split; try assumption; try lia; try (intros; assumption).
    apply Hend; assumption.
  - destruct (results s) as [ | r rest] eqn:R; try discriminate.
    destruct (collecting s) eqn:C; try discriminate.
    intro H. injection H as <-. cbn [cancelled jobs workers results results_cap
      results_closed coll collecting].
    cbn [List.length] in Hsum.
    repeat split; try assumption; try discriminate.
    + cbn [collect_one durations]. rewrite length_app. cbn. lia.
    + apply totalRequests_collect_one, Htot.
  - destruct (results s) as [ | r rest] eqn:R; try discriminate.
    destruct (results_closed s && collecting s) eqn:C; try discriminate.
    apply andb_prop in C as [C1 C2].
    intro H. injection H as <-. cbn.
    cbn in Hsum.
    repeat split; try assumption; try lia. intros _. apply Hcl, C1.
Qed.

Lemma pool_inv_run (N P : nat) (tr : list label) (s s' : state) :
  pool_inv N P s -> no_interrupt tr = true -> run tr s = Some s' ->
  pool_inv N P s'.
Proof.
  revert s. induction tr as [ | l tr IH]; intros s Hinv Hni Hrun; cbn in *.
  - injection Hrun as <-. assumption.
  - apply andb_prop in Hni as [Hl Hni].
    destruct (exec_step l s) as [s1 | ] eqn:E; [ | discriminate].
    apply (IH s1); try assumption.
    apply (pool_inv_step N P l s s1 Hinv); [ | assumption].
    destruct (is_interrupt l); [discriminate | reflexivity].
Qed.

(** A run that still collects can take a step that is not the interrupt. *)
Lemma pool_progress (N P : nat) (s : state) :
  pool_inv N P s -> collecting s = true ->
  exists l s', is_interrupt l = false /\ exec_step l s = Some s'.
Proof.
  intros (Hc & Hsum & Hcap & Hlen & Htot & Hend & Hcl & Hex) Hcol.
  destruct (forallb is_exited (workers s)) eqn:Hall.
  - destruct (results_closed s) eqn:Hclosed.
    + destruct (results s) as [ | r rest] eqn:R.
      * exists EndCollect. cbn. rewrite R, Hclosed, Hcol. cbn. eauto.
      * exists Receive. cbn. rewrite R, Hcol. eauto.
    + exists CloseResults. cbn. rewrite Hall, Hclosed. cbn. eauto.
  - destruct (not_all_exited _ Hall) as (i & w & E & Hw).
    destruct w; try congruence.
    + destruct (jobs s) as [ | n] eqn:J.
      * exists (Drained i). cbn. rewrite E, J. eauto.
      * exists (Take i). cbn. rewrite E, J. eauto.
    + exists (Begin i). cbn. rewrite E, Hc. eauto.
    + exists (Finish i 0%Z (mkExchange None 0 None 200 0 0 0)).
      cbn [exec_step]. rewrite E.
      pose proof (total_of_ge pending _ _ _ E) as Hp. cbn in Hp.
      destruct (Nat.ltb_spec (List.length (results s)) (results_cap s)); [ | lia].
      cbn. eauto.
Qed.

(** When the collector has left its loop it has received every token's
    outcome. *)
Lemma pool_final (N P : nat) (s : state) :
  pool_inv N P s -> 1 <= P -> collecting s = false ->
  List.length (durations (coll s)) = N.
Proof.
  intros (Hc & Hsum & Hcap & Hlen & Htot & Hend & Hcl & Hex) HP Hcol.
  destruct (Hend Hcol) as [Hres Hclosed].
  specialize (Hcl Hclosed).
  rewrite (all_exited_pending _ Hcl), Hres in Hsum. cbn in Hsum.
  rewrite Hex in Hsum; [lia | ].
  apply all_exited_exists; [ | assumption].
  destruct (workers s); [cbn in Hlen; lia | discriminate].
Qed.

(** Every run that is not interrupted can be continued to its end. *)
Lemma pool_completes (N P : nat) (k : nat) (s : state) :
  potential s <= k -> pool_inv N P s ->
  exists tr s',
    no_interrupt tr = true /\ run tr s = Some s' /\ collecting s' = false.
Proof.
  revert s. induction k as [ | k IH]; intros s Hk Hinv.
  - destruct (collecting s) eqn:Hcol.
    + unfold potential in Hk. rewrite Hcol in Hk. lia.
    + exists [], s. auto.
  - destruct (collecting s) eqn:Hcol.
    + destruct (pool_progress N P s Hinv Hcol) as (l & s1 & Hl & E).
      pose proof (step_potential _ _ _ E) as Hlt.
      destruct (IH s1 ltac:(lia) (pool_inv_step _ _ _ _ _ Hinv Hl E))
        as (tr & s' & Hni & Hrun & Hfin).
      exists (l :: tr), s'. cbn. rewrite Hl, E. auto.
    + exists [], s. auto.
Qed.

Lemma run_app (tr1 tr2 : list label) (s : state) :
  run (tr1 ++ tr2) s
  = match run tr1 s with
    | Some s1 => run tr2 s1
    | None => None
    end.
Proof.
  revert s. induction tr1 as [ | l tr1 IH]; intro s; cbn; [reflexivity | ].
  destruct (exec_step l s); [apply IH | reflexivity].
Qed.

End Pool.

(** C1: with [count_r >= 1] tokens and [count_p >= 1] workers and no
    interrupt, the collector receives exactly [count_r] outcomes, so
    [totalRequests] is [count_r] when the report is built: this holds at the
    end of every schedule, every schedule is finite, a run that has not
    ended can always go on, and a complete schedule exists. *)
Theorem conservation_of_work (count_p count_r : Z) :
  1 <= count_r < 2 ^ 63 -> 1 <= count_p ->
  (forall tr s,
     no_interrupt tr = true -> run tr (init_state count_p count_r) = Some s ->
     collecting s = false ->
     totalRequests (coll s) = count_r
     /\ Z.of_nat (List.length (durations (coll s))) = count_r)
  /\ (forall tr s,
        no_interrupt tr = true -> run tr (init_state count_p count_r) = Some s ->
        collecting s = true ->
        exists l s', is_interrupt l = false /\ exec_step l s = Some s')
  /\ (forall tr s,
        run tr (init_state count_p count_r) = Some s ->
        Z.of_nat (List.length tr) <= 4 * count_r + count_p + 3)
  /\ (exists tr s,
        no_interrupt tr = true
        /\ run tr (init_state count_p count_r) = Some s
        /\ collecting s = false).
Proof.
  intros Hr Hp.
  pose proof (pool_inv_init count_p count_r) as Hinit.
  split; [ | split; [ | split]].
  - intros tr s Hni Hrun Hcol.
    pose proof (pool_inv_run _ _ _ _ _ Hinit Hni Hrun) as Hinv.
    pose proof (pool_final _ _ _ Hinv ltac:(lia) Hcol) as Hlen.
    destruct Hinv as (_ & _ & _ & _ & Htot & _).
    rewrite Htot, Hlen, Z2Nat.id by lia.
    split; [apply wrap64_small; lia | reflexivity].
  - intros tr s Hni Hrun Hcol.
    apply (pool_progress _ _ s (pool_inv_run _ _ _ _ _ Hinit Hni Hrun) Hcol).
  - intros tr s Hrun. pose proof (run_potential _ _ _ Hrun) as Hpot.
    assert (Hi : potential (init_state count_p count_r)
                 = (4 * Z.to_nat count_r + Z.to_nat count_p + 3)%nat).
    { unfold potential, init_state. cbn [jobs workers results cancelled
        results_closed collecting List.length].
      assert (Hw : forall n, total_of weight (repeat AtRange n) = n)
        by (induction n; cbn; auto).
      rewrite Hw. lia. }
    rewrite Hi in Hpot. lia.
  - apply (pool_completes (Z.to_nat count_r) (Z.to_nat count_p)
             (potential (init_state count_p count_r)));
      [apply Nat.le_refl | exact Hinit].
Qed.

Lemma conservation_of_work_witness :
  totalRequests
    (coll (mkState 0 false [Exited] [] 2 true
             (collect [fst (attempt (mkExchange None 0 None 200 5 10 0) 0);
                       fst (attempt (mkExchange None 0 (Some "timeout"%string) 0 7 0 0) 0)])
             false)) = 2.
Proof.
  apply (proj1 (conservation_of_work 1 2 ltac:(lia) ltac:(lia))
           [Take 0%nat; Begin 0%nat;
            Finish 0%nat 0 (mkExchange None 0 None 200 5 10 0);
            Take 0%nat; Begin 0%nat;
            Finish 0%nat 0 (mkExchange None 0 (Some "timeout"%string) 0 7 0 0);
            Receive; Drained 0%nat; CloseResults; Receive; EndCollect]).
  - reflexivity.
  - reflexivity.
  - reflexivity.
Defined.

(** ** Cancellation *)

Section Cancellation.

Local Open Scope nat_scope.

(** A step changes at most the state of the worker that takes it. *)
Lemma step_workers (l : label) (s s' : state) :
  exec_step l s = Some s' ->
  match actor l with
  | Some j =>
      exists v w, nth_error (workers s) j = Some v /\ v <> Exited
                  /\ workers s' = upd j w (workers s)
  | None => workers s' = workers s
  end.
Proof.
  destruct l as [i | i | i | i | i t0 x | | | | ]; cbn [exec_step actor].
  - destruct (nth_error (workers s) i) as [[ | | | ] | ] eqn:E; try discriminate.
    destruct (jobs s); try discriminate.
    intro H. injection H as <-. exists AtRange, AtSelect. cbn.
    repeat split. discriminate.
  - destruct (nth_error (workers s) i) as [[ | | | ] | ] eqn:E; try discriminate.
    destruct (jobs s); try discriminate.
    intro H. injection H as <-. exists AtRange, Exited. cbn.
    repeat split. discriminate.
  - destruct (nth_error (workers s) i) as [[ | | | ] | ] eqn:E; try discriminate.
    destruct (cancelled s); try discriminate.
    intro H. injection H as <-. exists AtSelect, Exited. cbn.
    repeat split. discriminate.
  - destruct (nth_error (workers s) i) as [[ | | | ] | ] eqn:E; try discriminate.
    destruct (cancelled s); try discriminate.
    intro H. injection H as <-. exists AtSelect, InFlight. cbn.
    repeat split. discriminate.
  - destruct (nth_error (workers s) i) as [[ | | | ] | ] eqn:E; try discriminate.
    destruct (List.length (results s) <? results_cap s); try discriminate.
    intro H. injection H as <-. exists InFlight, AtRange. cbn.
    repeat split. discriminate.
  - destruct (cancelled s); try discriminate.
    intro H. injection H as <-. reflexivity.
  - destruct (forallb is_exited (workers s) && negb (results_closed s));
      try discriminate.
    intro H. injection H as <-. reflexivity.
  - destruct (results s); try discriminate.
    destruct (collecting s); try discriminate.
    intro H. injection H as <-. reflexivity.
  - destruct (results s); try discriminate.
    destruct (results_closed s && collecting s); try discriminate.
    intro H. injection H as <-. reflexivity.
Qed.

Lemma step_other_worker (l : label) (s s' : state) (i : nat) :
  exec_step l s = Some s' -> actor l <> Some i ->
  nth_error (workers s') i = nth_error (workers s) i.
Proof.
  intros E Ha. pose proof (step_workers _ _ _ E) as H.
  destruct (actor l) as [j | ].
  - destruct H as (v & w & _ & _ & ->).
    apply nth_error_upd_other. congruence.
  - rewrite H. reflexivity.
Qed.

(** A worker that has returned takes no step and stays returned. *)
Lemma step_exited (l : label) (s s' : state) (i : nat) :
  exec_step l s = Some s' -> nth_error (workers s) i = Some Exited ->
  actor l <> Some i /\ nth_error (workers s') i = Some Exited.
Proof.
  intros E Hi.
  assert (Ha : actor l <> Some i).
  { intro Ha. pose proof (step_workers _ _ _ E) as H. rewrite Ha in H.
    destruct H as (v & w & Hv & Hne & _). congruence. }
  split; [exact Ha | ].
  rewrite (step_other_worker _ _ _ _ E Ha). exact Hi.
Qed.

Lemma run_exited (tr : list label) (s s' : state) (i : nat) :
  run tr s = Some s' -> nth_error (workers s) i = Some Exited ->
  Forall (fun l => actor l <> Some i) tr
  /\ nth_error (workers s') i = Some Exited.
Proof.
  revert s. induction tr as [ | l tr IH]; intros s Hrun Hi; cbn in Hrun.
  - injection Hrun as <-. split; [constructor | exact Hi].
  - destruct (exec_step l s) as [s1 | ] eqn:E; [ | discriminate].
    destruct (step_exited _ _ _ _ E Hi) as [Ha Hi1].
    destruct (IH _ Hrun Hi1) as [Hall Hfin].
    split; [constructor; assumption | exact Hfin].
Qed.

Lemma step_cancelled (l : label) (s s' : state) :
  exec_step l s = Some s' -> cancelled s = true -> cancelled s' = true.
Proof.
  intros E Hc.
  destruct l as [i | i | i | i | i t0 x | | | | ]; cbn [exec_step] in E.
  - destruct (nth_error (workers s) i) as [[ | | | ] | ]; try discriminate.
    destruct (jobs s); try discriminate. injection E as <-. exact Hc.
  - destruct (nth_error (workers s) i) as [[ | | | ] | ]; try discriminate.
    destruct (jobs s); try discriminate. injection E as <-. exact Hc.
  - destruct (nth_error (workers s) i) as [[ | | | ] | ]; try discriminate.
    rewrite Hc in E. injection E as <-. exact Hc.
  - destruct (nth_error (workers s) i) as [[ | | | ] | ]; try discriminate.
    rewrite Hc in E. discriminate.
  - destruct (nth_error (workers s) i) as [[ | | | ] | ]; try discriminate.
    destruct (List.length (results s) <? results_cap s); try discriminate.
    injection E as <-. exact Hc.
  - rewrite Hc in E. discriminate.
  - destruct (forallb is_exited (workers s) && negb (results_closed s));
      try discriminate.
    injection E as <-. exact Hc.
  - destruct (results s); try discriminate.
    destruct (collecting s); try discriminate. injection E as <-. exact Hc.
  - destruct (results s); try discriminate.
    destruct (results_closed s && collecting s); try discriminate.
    injection E as <-. exact Hc.
Qed.

Lemma run_cancelled (tr : list label) (s s' : state) :
  run tr s = Some s' -> cancelled s = true -> cancelled s' = true.
Proof.
  revert s. induction tr as [ | l tr IH]; intros s Hrun Hc; cbn in Hrun.
  - injection Hrun as <-. exact Hc.
  - destruct (exec_step l s) as [s1 | ] eqn:E; [ | discriminate].
    apply (IH _ Hrun). apply (step_cancelled _ _ _ E Hc).
Qed.

Lemma run_other_worker (tr : list label) (s s' : state) (i : nat) :
  run tr s = Some s' -> Forall (fun l => actor l <> Some i) tr ->
  nth_error (workers s') i = nth_error (workers s) i.
Proof.
  revert s. induction tr as [ | l tr IH]; intros s Hrun Hall; cbn in Hrun.
  - injection Hrun as <-. reflexivity.
  - destruct (exec_step l s) as [s1 | ] eqn:E; [ | discriminate].
    inversion Hall as [ | ? ? Hl Htl]; subst.
    rewrite (IH _ Hrun Htl). apply (step_other_worker _ _ _ _ E Hl).
Qed.

(** In front of the [select] with the signal set, the only step of the
    worker is to return; it sends nothing and takes nothing. *)
Lemma select_cancelled (l : label) (s s' : state) (i : nat) :
  nth_error (workers s) i = Some AtSelect -> cancelled s = true ->
  actor l = Some i -> exec_step l s = Some s' ->
  l = Observe i /\ results s' = results s /\ jobs s' = jobs s.
Proof.
  intros Hi Hc Ha E.
  destruct l as [j | j | j | j | j t0 x | | | | ]; cbn [actor] in Ha;
    try discriminate; injection Ha as ->; cbn [exec_step] in E;
    rewrite Hi in E; try discriminate; rewrite Hc in E; try discriminate.
  injection E as <-. cbn. auto.
Qed.

End Cancellation.

(** C3: once a worker has observed the cancellation signal it has returned:
    it takes no further token (and no other step) in the rest of the run, and
    observing the signal consumes no token and sends no outcome; a token
    received after the signal was set leads to no request, the next step of
    that worker being the observation of the signal. *)
Theorem worker_stops_after_cancel
    (s0 s' : state) (pre post : list label) (i : nat) :
  run (pre ++ Observe i :: post) s0 = Some s' ->
  (exists s1 s2,
     run pre s0 = Some s1 /\ exec_step (Observe i) s1 = Some s2
     /\ cancelled s1 = true
     /\ jobs s2 = jobs s1 /\ results s2 = results s1
     /\ nth_error (workers s2) i = Some Exited)
  /\ Forall (fun l => actor l <> Some i) post
  /\ nth_error (workers s') i = Some Exited
  /\ (forall t t1 mid t2 l t3,
        cancelled t = true -> exec_step (Take i) t = Some t1 ->
        run mid t1 = Some t2 -> Forall (fun l => actor l <> Some i) mid ->
        actor l = Some i -> exec_step l t2 = Some t3 ->
        l = Observe i /\ results t3 = results t2 /\ jobs t3 = jobs t2).
Proof.
  intro Hrun. rewrite run_app in Hrun.
  destruct (run pre s0) as [s1 | ] eqn:Hpre; [ | discriminate].
  cbn [run] in Hrun.
  destruct (exec_step (Observe i) s1) as [s2 | ] eqn:Hobs; [ | discriminate].
  assert (Hs2 : cancelled s1 = true /\ jobs s2 = jobs s1
                /\ results s2 = results s1
                /\ nth_error (workers s2) i = Some Exited).
  { cbn [exec_step] in Hobs.
    destruct (nth_error (workers s1) i) as [[ | | | ] | ] eqn:E; try discriminate.
    destruct (cancelled s1); try discriminate.
    injection Hobs as <-. cbn. repeat split.
    apply (nth_error_upd_same _ _ _ _ E). }
  destruct Hs2 as (Hc & Hj & Hr & Hex).
  destruct (run_exited _ _ _ _ Hrun Hex) as [Hall Hfin].
  split; [exists s1, s2; repeat split; assumption | ].
  split; [exact Hall | ]. split; [exact Hfin | ].
  intros t t1 mid t2 l t3 Hct Htake Hmid Hnot Ha Hstep.
  assert (Hsel : nth_error (workers t1) i = Some AtSelect).
  { cbn [exec_step] in Htake.
    destruct (nth_error (workers t) i) as [[ | | | ] | ] eqn:E; try discriminate.
    destruct (jobs t); try discriminate.
    injection Htake as <-. cbn. apply (nth_error_upd_same _ _ _ _ E). }
  apply (select_cancelled l t2 t3 i); try assumption.
  - rewrite (run_other_worker _ _ _ _ Hmid Hnot). exact Hsel.
  - apply (run_cancelled _ _ _ Hmid). apply (step_cancelled _ _ _ Htake Hct).
Qed.

Lemma worker_stops_after_cancel_witness :
  Forall (fun l => actor l <> Some 0%nat) [Take 1%nat; Observe 1%nat].
Proof.
  apply (worker_stops_after_cancel (init_state 2 3)
           (mkState 1 true [Exited; Exited] [] 3 false collector_init true)
           [Take 0%nat; Interrupt] [Take 1%nat; Observe 1%nat] 0%nat).
  reflexivity.
Defined.

(** ** A run without outcomes *)

Lemma step_coll (l : label) (s s' : state) :
  exec_step l s = Some s' -> is_receive l = false -> coll s' = coll s.
Proof.
  intros E Hl.
  destruct l as [i | i | i | i | i t0 x | | | | ]; cbn [exec_step] in E;
    try discriminate Hl.
  - destruct (nth_error (workers s) i) as [[ | | | ] | ]; try discriminate.
    destruct (jobs s); try discriminate. injection E as <-. reflexivity.
  - destruct (nth_error (workers s) i) as [[ | | | ] | ]; try discriminate.
    destruct (jobs s); try discriminate. injection E as <-. reflexivity.
  - destruct (nth_error (workers s) i) as [[ | | | ] | ]; try discriminate.
    destruct (cancelled s); try discriminate. injection E as <-. reflexivity.
  - destruct (nth_error (workers s) i) as [[ | | | ] | ]; try discriminate.
    destruct (cancelled s); try discriminate. injection E as <-. reflexivity.
  - destruct (nth_error (workers s) i) as [[ | | | ] | ]; try discriminate.
    destruct (List.length (results s) <? results_cap s)%nat; try discriminate.
    injection E as <-. reflexivity.
  - destruct (cancelled s); try discriminate. injection E as <-. reflexivity.
  - destruct (forallb is_exited (workers s) && negb (results_closed s));
      try discriminate.
    injection E as <-. reflexivity.
  - destruct (results s); try discriminate.
    destruct (results_closed s && collecting s); try discriminate.
    injection E as <-. reflexivity.
Qed.

Lemma run_coll (tr : list label) (s s' : state) :
  run tr s = Some s' -> no_receive tr = true -> coll s' = coll s.
Proof.
  revert s. induction tr as [ | l tr IH]; intros s Hrun Hnr; cbn in *.
  - injection Hrun as <-. reflexivity.
  - apply andb_prop in Hnr as [Hl Hnr].
    destruct (exec_step l s) as [s1 | ] eqn:E; [ | discriminate].
    rewrite (IH _ Hrun Hnr). apply (step_coll _ _ _ E).
    destruct (is_receive l); [discriminate | reflexivity].
Qed.

(** At every point of every run the collector holds the aggregates of the
    outcomes received so far, in their order of arrival: the properties of
    [collect] are properties of every run. *)
Lemma run_collected (tr : list label) (s s' : state) (rs : list result) :
  run tr s = Some s' -> coll s = collect rs ->
  exists rs', coll s' = collect (rs ++ rs').
Proof.
  revert s rs. induction tr as [ | l tr IH]; intros s rs Hrun Hc; cbn in Hrun.
  - injection Hrun as <-. exists []. rewrite app_nil_r. exact Hc.
  - destruct (exec_step l s) as [s1 | ] eqn:E; [ | discriminate].
    destruct (is_receive l) eqn:Hl.
    + destruct l; try discriminate. cbn [exec_step] in E.
      destruct (results s) as [ | res rest]; try discriminate.
      destruct (collecting s); try discriminate.
      injection E as <-.
      destruct (IH _ (rs ++ [res]) Hrun) as (rs' & Hrs').
      * cbn [coll]. rewrite Hc, collect_snoc. reflexivity.
      * exists (res :: rs'). rewrite Hrs', <- app_assoc. reflexivity.
    + apply (IH s1 rs Hrun). rewrite (step_coll _ _ _ E Hl). exact Hc.
Qed.

(** C5: a run that collects no outcome reports a total of 0, 0 successful
    and 0 failed requests; the percentiles are not indexed, the latency
    lines, the throughput and the success rate are not computed, and the
    report is built without a panic (no integer division by zero, no index
    into the empty slice).  Requests per second is the floating-point
    quotient of 0 by the elapsed time. *)
Theorem zero_outcomes_report
    (count_p count_r : Z) (tr : list label) (s : state) (elapsed : Z) :
  run tr (init_state count_p count_r) = Some s -> no_receive tr = true ->
  durations (coll s) = []
  /\ compute_percentiles (durations (coll s)) = Some (mkPercentiles 0 0 0 0)
  /\ build_report (coll s) elapsed
     = Some (mkReport elapsed 0 0 0 (mkRatio 0 elapsed) None).
Proof.
  intros Hrun Hnr. rewrite (run_coll _ _ _ Hrun Hnr).
  cbn [init_state coll]. repeat split.
Qed.

Lemma zero_outcomes_report_witness :
  build_report
    (coll (mkState 1 true [Exited; Exited] [] 3 true collector_init false))
    1500000
  = Some (mkReport 1500000 0 0 0 (mkRatio 0 1500000) None).
Proof.
  apply (zero_outcomes_report 2 3
           [Take 0%nat; Interrupt; Observe 0%nat; Take 1%nat; Observe 1%nat;
            CloseResults; EndCollect]
           (mkState 1 true [Exited; Exited] [] 3 true collector_init false)
           1500000).
  - reflexivity.
  - reflexivity.
Defined.

(** ** Failed requests *)

(** C7: a request whose construction or transport fails makes the worker
    send exactly one outcome, with status code 0, zero bytes and the error
    set; the worker is then back at the head of its loop, ready for the next
    token: it has not returned, and the token was not put back to be tried
    again. *)
Theorem failed_request_outcome
    (x : exchange) (e : error) (s s' : state) (i : nat) (t0 : Z) :
  request_fails x = Some e -> exec_step (Finish i t0 x) s = Some s' ->
  (exists r,
     results s' = results s ++ [r]
     /\ StatusCode r = 0 /\ Bytes r = 0 /\ Error r = Some e)
  /\ nth_error (workers s') i = Some AtRange
  /\ jobs s' = jobs s
  /\ (forall j, j <> i -> nth_error (workers s') j = nth_error (workers s) j)
  /\ (forall n, jobs s' = S n -> exists s'', exec_step (Take i) s' = Some s'').
Proof.
  intros Hfail Hstep. cbn [exec_step] in Hstep.
  destruct (nth_error (workers s) i) as [[ | | | ] | ] eqn:E; try discriminate.
  destruct (List.length (results s) <? results_cap s)%nat; try discriminate.
  injection Hstep as <-. cbn [results workers jobs].
  pose proof (nth_error_upd_same _ _ _ AtRange E) as Hi.
  split; [ | split; [exact Hi | split; [reflexivity | split]]].
  - exists (fst (attempt x t0)). split; [reflexivity | ].
    apply attempt_failure, Hfail.
  - intros j Hj. apply nth_error_upd_other. congruence.
  - intros n Hn. cbn [exec_step workers jobs]. rewrite Hi, Hn. eauto.
Qed.

Lemma failed_request_outcome_witness :
  request_fails (mkExchange None 10 (Some "timeout"%string) 0 20 0 0)
    = Some "timeout"%string
  /\ nth_error
       (workers (mkState 1 false [AtRange; AtSelect]
                   [mkResult 0 30 0 (Some "timeout"%string)] 3 false
                   collector_init true)) 0
     = Some AtRange.
Proof.
  split; [reflexivity | ].
  apply (failed_request_outcome
           (mkExchange None 10 (Some "timeout"%string) 0 20 0 0)
           "timeout"%string
           (mkState 1 false [InFlight; AtSelect] [] 3 false collector_init true)
           (mkState 1 false [AtRange; AtSelect]
              [mkResult 0 30 0 (Some "timeout"%string)] 3 false
              collector_init true)
           0%nat 0).
  - reflexivity.
  - reflexivity.
Defined.

(** * Further properties of the code *)

(** ** Every run, interrupted or not *)

Section AnyRun.

Local Open Scope nat_scope.

Lemma run_inv_init (count_p count_r : Z) :
  run_inv (Z.to_nat count_r) (Z.to_nat count_p) (init_state count_p count_r).
Proof.
  unfold run_inv, init_state. cbn.
  assert (Hp : forall n, total_of pending (repeat AtRange n) = 0)
    by (induction n; cbn; auto).
  rewrite Hp, repeat_length.
  repeat split; try lia; try discriminate.
Qed.

Lemma run_inv_step (N P : nat) (l : label) (s s' : state) :
  run_inv N P s -> exec_step l s = Some s' -> run_inv N P s'.
Proof.
  intros (Hsum & Hcap & Hlen & Htot & Hend & Hcl).
  assert (Hopen : forall i w, nth_error (workers s) i = Some w -> w <> Exited ->
                              results_closed s = false /\ collecting s = true).
  { intros i w E Hw.
    assert (results_closed s = false).
    { destruct (results_closed s); [ | reflexivity].
      elim Hw. apply (all_exited_nth _ _ _ (Hcl eq_refl) E). }
    split; [assumption | ].
    destruct (collecting s); [reflexivity | ].
    destruct (Hend eq_refl). congruence. }
  unfold run_inv.
  destruct l as [i | i | i | i | i t0 x | | | | ]; cbn [exec_step].
  - destruct (nth_error (workers s) i) as [[ | | | ] | ] eqn:E; try discriminate.
    destruct (jobs s) as [ | n] eqn:J; try discriminate.
    intro H. injection H as <-. cbn.
    pose proof (total_of_upd pending _ _ _ AtSelect E) as Hp. cbn in Hp.
    destruct (Hopen _ _ E ltac:(discriminate)) as [Ho1 Ho2].
    rewrite length_upd.
    repeat split; try assumption; try lia; try congruence.
  - destruct (nth_error (workers s) i) as [[ | | | ] | ] eqn:E; try discriminate.
    destruct (jobs s) as [ | n] eqn:J; try discriminate.
    intro H. injection H as <-. cbn.
    pose proof (total_of_upd pending _ _ _ Exited E) as Hp. cbn in Hp.
    destruct (Hopen _ _ E ltac:(discriminate)) as [Ho1 Ho2].
    rewrite length_upd.
    repeat split; try assumption; try lia; try congruence.
  - destruct (nth_error (workers s) i) as [[ | | | ] | ] eqn:E; try discriminate.
    destruct (cancelled s); try discriminate.
    intro H. injection H as <-. cbn.
    pose proof (total_of_upd pending _ _ _ Exited E) as Hp. cbn in Hp.
    destruct (Hopen _ _ E ltac:(discriminate)) as [Ho1 Ho2].
    rewrite length_upd.
    repeat split; try assumption; try lia; try congruence.
  - destruct (nth_error (workers s) i) as [[ | | | ] | ] eqn:E; try discriminate.
    destruct (cancelled s); try discriminate.
    intro H. injection H as <-. cbn.
    pose proof (total_of_upd pending _ _ _ InFlight E) as Hp. cbn in Hp.
    destruct (Hopen _ _ E ltac:(discriminate)) as [Ho1 Ho2].
    rewrite length_upd.
    repeat split; try assumption; try lia; try congruence.
  - destruct (nth_error (workers s) i) as [[ | | | ] | ] eqn:E; try discriminate.
    destruct (List.length (results s) <? results_cap s)%nat; try discriminate.
    intro H. injection H as <-. cbn.
    pose proof (total_of_upd pending _ _ _ AtRange E) as Hp. cbn in Hp.
    destruct (Hopen _ _ E ltac:(discriminate)) as [Ho1 Ho2].
    rewrite length_upd, length_app. cbn.
    repeat split; try assumption; try lia; try congruence.
  - destruct (cancelled s); try discriminate.
    intro H. injection H as <-. cbn.
    repeat split; try assumption; try lia; try (intros; assumption);
      apply Hend; assumption.
  - destruct (forallb is_exited (workers s) && negb (results_closed s)) eqn:C;
      try discriminate.
    apply andb_prop in C as [C1 C2].
    intro H. injection H as <-. cbn.
    repeat split; try assumption; try lia; try (intros; assumption).
    apply Hend; assumption.
  - destruct (results s) as [ | r rest] eqn:R; try discriminate.
    destruct (collecting s) eqn:C; try discriminate.
    intro H. injection H as <-. cbn [cancelled jobs workers results results_cap
      results_closed coll collecting].
    cbn [List.length] in Hsum.
    repeat split; try assumption; try discriminate.
    + cbn [collect_one durations]. rewrite length_app. cbn. lia.
    + apply totalRequests_collect_one, Htot.
  - destruct (results s) as [ | r rest] eqn:R; try discriminate.
    destruct (results_closed s && collecting s) eqn:C; try discriminate.
    apply andb_prop in C as [C1 C2].
    intro H. injection H as <-. cbn.
    cbn in Hsum.
    repeat split; try assumption; try lia. intros _. apply Hcl, C1.
Qed.

Lemma run_inv_run (N P : nat) (tr : list label) (s s' : state) :
  run_inv N P s -> run tr s = Some s' -> run_inv N P s'.
Proof.
  revert s. induction tr as [ | l tr IH]; intros s Hinv Hrun; cbn in *.
  - injection Hrun as <-. assumption.
  - destruct (exec_step l s) as [s1 | ] eqn:E; [ | discriminate].
    apply (IH s1); [ | assumption].
    apply (run_inv_step N P l s s1 Hinv E).
Qed.

Lemma run_inv_progress (N P : nat) (s : state) :
  run_inv N P s -> collecting s = true ->
  exists l s', is_interrupt l = false /\ exec_step l s = Some s'.
Proof.
  intros (Hsum & Hcap & Hlen & Htot & Hend & Hcl) Hcol.
  destruct (forallb is_exited (workers s)) eqn:Hall.
  - destruct (results_closed s) eqn:Hclosed.
    + destruct (results s) as [ | r rest] eqn:R.
      * exists EndCollect. cbn. rewrite R, Hclosed, Hcol. cbn. eauto.
      * exists Receive. cbn. rewrite R, Hcol. eauto.
    + exists CloseResults. cbn. rewrite Hall, Hclosed. cbn. eauto.
  - destruct (not_all_exited _ Hall) as (i & w & E & Hw).
    destruct w; try congruence.
    + destruct (jobs s) as [ | n] eqn:J.
      * exists (Drained i). cbn. rewrite E, J. eauto.
      * exists (Take i). cbn. rewrite E, J. eauto.
    + destruct (cancelled s) eqn:C.
      * exists (Observe i). cbn. rewrite E, C. eauto.
      * exists (Begin i). cbn. rewrite E, C. eauto.
    + exists (Finish i 0%Z (mkExchange None 0 None 200 0 0 0)).
      cbn [exec_step]. rewrite E.
      pose proof (total_of_ge pending _ _ _ E) as Hp. cbn in Hp.
      destruct (Nat.ltb_spec (List.length (results s)) (results_cap s)); [ | lia].
      cbn. eauto.
Qed.

Lemma run_inv_completes (N P : nat) (k : nat) (s : state) :
  potential s <= k -> run_inv N P s ->
  exists tr s',
    no_interrupt tr = true /\ run tr s = Some s' /\ collecting s' = false.
Proof.
  revert s. induction k as [ | k IH]; intros s Hk Hinv.
  - destruct (collecting s) eqn:Hcol.
    + unfold potential in Hk. rewrite Hcol in Hk. lia.
    + exists [], s. auto.
  - destruct (collecting s) eqn:Hcol.
    + destruct (run_inv_progress N P s Hinv Hcol) as (l & s1 & Hl & E).
      pose proof (step_potential _ _ _ E) as Hlt.
      destruct (IH s1 ltac:(lia) (run_inv_step _ _ _ _ _ Hinv E))
        as (tr & s' & Hni & Hrun & Hfin).
      exists (l :: tr), s'. cbn. rewrite Hl, E. auto.
    + exists [], s. auto.
Qed.

End AnyRun.

(** ** What is sent is what is collected *)

Section Sent.

Local Open Scope nat_scope.

Lemma count_finish_sent (tr : list label) :
  count_finish tr = List.length (sent tr).
Proof.
  unfold count_finish.
  induction tr as [ | l tr IH]; [reflexivity | ].
  destruct l; cbn; try exact IH. rewrite <- IH. reflexivity.
Qed.

(** The collector holds the aggregates of a prefix of the outcomes sent, and
    the buffer of [results] holds the rest, in the order of the sends. *)
Lemma run_sent (tr : list label) (s s' : state) (rs : list result) :
  run tr s = Some s' -> coll s = collect rs ->
  exists rs',
    coll s' = collect rs' /\ rs' ++ results s' = rs ++ results s ++ sent tr.
Proof.
  revert s rs. induction tr as [ | l tr IH]; intros s rs Hrun Hc; cbn [run] in Hrun.
  - injection Hrun as <-. exists rs. cbn. rewrite app_nil_r. auto.
  - destruct (exec_step l s) as [s1 | ] eqn:E; [ | discriminate].
    destruct l as [i | i | i | i | i t0 x | | | | ]; cbn [exec_step] in E; cbn [sent].
    + destruct (nth_error (workers s) i) as [[ | | | ] | ]; try discriminate.
      destruct (jobs s); try discriminate. injection E as <-.
      apply (IH _ rs Hrun Hc).
    + destruct (nth_error (workers s) i) as [[ | | | ] | ]; try discriminate.
      destruct (jobs s); try discriminate. injection E as <-.
      apply (IH _ rs Hrun Hc).
    + destruct (nth_error (workers s) i) as [[ | | | ] | ]; try discriminate.
      destruct (cancelled s); try discriminate. injection E as <-.
      apply (IH _ rs Hrun Hc).
    + destruct (nth_error (workers s) i) as [[ | | | ] | ]; try discriminate.
      destruct (cancelled s); try discriminate. injection E as <-.
      apply (IH _ rs Hrun Hc).
    + destruct (nth_error (workers s) i) as [[ | | | ] | ]; try discriminate.
      destruct (List.length (results s) <? results_cap s); try discriminate.
      injection E as <-.
      destruct (IH _ rs Hrun Hc) as (rs' & Hc' & Hrs'). cbn [results] in Hrs'.
      exists rs'. split; [exact Hc' | ].
      rewrite Hrs', <- !app_assoc. reflexivity.
    + destruct (cancelled s); try discriminate. injection E as <-.
      apply (IH _ rs Hrun Hc).
    + destruct (forallb is_exited (workers s) && negb (results_closed s));
        try discriminate.
      injection E as <-. apply (IH _ rs Hrun Hc).
    + destruct (results s) as [ | res rest] eqn:R; try discriminate.
      destruct (collecting s); try discriminate. injection E as <-.
      destruct (IH _ (rs ++ [res]) Hrun) as (rs' & Hc' & Hrs').
      * cbn [coll]. rewrite Hc, collect_snoc. reflexivity.
      * cbn [results] in Hrs'. exists rs'. split; [exact Hc' | ].
        rewrite Hrs', <- !app_assoc. reflexivity.
    + destruct (results s) as [ | res rest] eqn:R; try discriminate.
      destruct (results_closed s && collecting s); try discriminate.
      injection E as <-.
      destruct (IH _ rs Hrun Hc) as (rs' & Hc' & Hrs'). cbn [results] in Hrs'.
      exists rs'. split; [exact Hc' | ]. exact Hrs'.
Qed.

End Sent.

(** ** Bounds, liveness and channel discipline of every run *)

Section RunTheorems.

Local Open Scope nat_scope.

(** X1: However a run is scheduled and whenever it is interrupted, the outcomes
    sent never exceed the [count_r] tokens, and the buffer of [results]
    never exceeds its capacity. *)
Theorem outcomes_never_exceed_tokens
    (count_p count_r : Z) (tr : list label) (s : state) :
  run tr (init_state count_p count_r) = Some s ->
  count_finish tr <= Z.to_nat count_r
  /\ List.length (results s) + List.length (durations (coll s))
     <= Z.to_nat count_r
  /\ List.length (results s) <= results_cap s.
Proof.
  intro Hrun.
  pose proof (run_inv_run _ _ _ _ _ (run_inv_init count_p count_r) Hrun)
    as (Hsum & Hcap & _).
  destruct (run_sent tr _ s [] Hrun eq_refl) as (rs & Hc & Hrs).
  cbn in Hrs.
  rewrite count_finish_sent, <- Hrs, length_app.
  rewrite Hc, durations_collect, length_map in *.
  rewrite Hcap. lia.
Qed.

Lemma outcomes_never_exceed_tokens_witness :
  count_finish [Take 0; Interrupt; Observe 0; Take 1; Observe 1] <= Z.to_nat 3%Z.
Proof.
  apply (outcomes_never_exceed_tokens 2%Z 3%Z
           [Take 0; Interrupt; Observe 0; Take 1; Observe 1]
           (mkState 1 true [Exited; Exited] [] 3 false collector_init true)).
  reflexivity.
Defined.

(** X2: A worker whose request is over can always send its outcome: the buffer
    of [results] has room, so the send does not block. *)
Theorem send_never_blocks
    (count_p count_r : Z) (tr : list label) (s : state)
    (i : nat) (t0 : Z) (x : exchange) :
  run tr (init_state count_p count_r) = Some s ->
  nth_error (workers s) i = Some InFlight ->
  exists s', exec_step (Finish i t0 x) s = Some s'.
Proof.
  intros Hrun Hi.
  pose proof (run_inv_run _ _ _ _ _ (run_inv_init count_p count_r) Hrun)
    as (Hsum & Hcap & _).
  cbn [exec_step]. rewrite Hi.
  pose proof (total_of_ge pending _ _ _ Hi) as Hp. cbn in Hp.
  destruct (Nat.ltb_spec (List.length (results s)) (results_cap s)); [eauto | lia].
Qed.

Lemma send_never_blocks_witness :
  exists s',
    exec_step (Finish 0 0%Z (mkExchange None 1%Z None 200%Z 2%Z 3%Z 4%Z))
      (mkState 0 false [InFlight] [] 1 false collector_init true) = Some s'.
Proof.
  apply (send_never_blocks 1%Z 1%Z [Take 0; Begin 0]).
  - reflexivity.
  - reflexivity.
Defined.

(** X3: Deadlock freedom: at every point of every run, interrupted or not, the
    collector has left its loop or some step other than the interrupt is
    possible, and the run can be continued to its end. *)
Theorem run_always_completes
    (count_p count_r : Z) (tr : list label) (s : state) :
  run tr (init_state count_p count_r) = Some s ->
  (collecting s = true ->
   exists l s', is_interrupt l = false /\ exec_step l s = Some s')
  /\ exists tr' s',
       no_interrupt tr' = true
       /\ run (tr ++ tr') (init_state count_p count_r) = Some s'
       /\ collecting s' = false.
Proof.
  intro Hrun.
  pose proof (run_inv_run _ _ _ _ _ (run_inv_init count_p count_r) Hrun) as Hinv.
  split; [apply (run_inv_progress _ _ _ Hinv) | ].
  destruct (run_inv_completes _ _ (potential s) s (Nat.le_refl _) Hinv)
    as (tr' & s' & Hni & Hrun' & Hfin).
  exists tr', s'. rewrite run_app, Hrun. auto.
Qed.

Lemma run_always_completes_witness :
  exists tr' s',
    no_interrupt tr' = true
    /\ run ([Take 0; Begin 0; Interrupt] ++ tr') (init_state 1%Z 2%Z) = Some s'
    /\ collecting s' = false.
Proof.
  apply (run_always_completes 1%Z 2%Z [Take 0; Begin 0; Interrupt]
           (mkState 1 true [InFlight] [] 2 false collector_init true)).
  reflexivity.
Defined.

Lemma step_closed (l : label) (s s' : state) :
  exec_step l s = Some s' ->
  results_closed s = true -> forallb is_exited (workers s) = true ->
  actor l = None /\ is_close l = false
  /\ results_closed s' = true /\ forallb is_exited (workers s') = true.
Proof.
  intros E Hc Hall.
  pose proof (step_workers _ _ _ E) as Hw.
  destruct (actor l) as [j | ] eqn:Ha.
  - destruct Hw as (v & w & Hv & Hne & _).
    elim Hne. apply (all_exited_nth _ _ _ Hall Hv).
  - rewrite Hw. split; [reflexivity | ].
    destruct l as [i | i | i | i | i t0 x | | | | ]; try discriminate Ha;
      cbn [exec_step] in E.
    + destruct (cancelled s); try discriminate. injection E as <-. cbn. auto.
    + rewrite Hc, andb_false_r in E. discriminate.
    + destruct (results s); try discriminate.
      destruct (collecting s); try discriminate. injection E as <-. cbn. auto.
    + destruct (results s); try discriminate.
      destruct (results_closed s && collecting s); try discriminate.
      injection E as <-. cbn. auto.
Qed.

Lemma run_closed (tr : list label) (s s' : state) :
  run tr s = Some s' ->
  results_closed s = true -> forallb is_exited (workers s) = true ->
  Forall (fun l => actor l = None /\ is_close l = false) tr
  /\ results_closed s' = true /\ forallb is_exited (workers s') = true.
Proof.
  revert s. induction tr as [ | l tr IH]; intros s Hrun Hc Hall; cbn [run] in Hrun.
  - injection Hrun as <-. auto.
  - destruct (exec_step l s) as [s1 | ] eqn:E; [ | discriminate].
    destruct (step_closed _ _ _ E Hc Hall) as (Ha & Hl & Hc1 & Hall1).
    destruct (IH _ Hrun Hc1 Hall1) as (Hf & Hc' & Hall').
    split; [constructor; auto | auto].
Qed.

(** X4: [results] is closed once, when every worker has returned: after the
    close no worker takes a step (in particular nothing is sent on the
    closed channel) and the channel is not closed again. *)
Theorem no_send_after_close
    (s0 s : state) (pre post : list label) :
  run (pre ++ CloseResults :: post) s0 = Some s ->
  (exists s1, run pre s0 = Some s1
              /\ forallb is_exited (workers s1) = true
              /\ results_closed s1 = false)
  /\ Forall (fun l => actor l = None /\ is_close l = false) post
  /\ count_finish post = 0
  /\ results_closed s = true.
Proof.
  intro Hrun. rewrite run_app in Hrun.
  destruct (run pre s0) as [s1 | ] eqn:Hpre; [ | discriminate].
  cbn [run] in Hrun.
  destruct (exec_step CloseResults s1) as [s2 | ] eqn:E; [ | discriminate].
  cbn [exec_step] in E.
  destruct (forallb is_exited (workers s1) && negb (results_closed s1)) eqn:C;
    try discriminate.
  apply andb_prop in C as [C1 C2]. injection E as <-.
  destruct (run_closed _ _ _ Hrun eq_refl C1) as (Hf & Hc & _).
  split; [exists s1; repeat split; try assumption;
          destruct (results_closed s1); [discriminate | reflexivity] | ].
  split; [exact Hf | ]. split; [ | exact Hc].
  clear - Hf. unfold count_finish.
  induction Hf as [ | l post [Ha _] _ IH]; [reflexivity | ].
  destruct l; try discriminate Ha; exact IH.
Qed.

Lemma no_send_after_close_witness :
  count_finish [Receive; EndCollect] = 0.
Proof.
  apply (no_send_after_close (init_state 1%Z 1%Z)
           (mkState 0 false [Exited] [] 1 true
              (collect [fst (attempt (mkExchange None 1%Z None 200%Z 2%Z 3%Z 4%Z) 0%Z)]) false)
           [Take 0; Begin 0; Finish 0 0%Z (mkExchange None 1%Z None 200%Z 2%Z 3%Z 4%Z); Drained 0]
           [Receive; EndCollect]).
  reflexivity.
Defined.

(** X5: No outcome is lost, duplicated or reordered between the workers and the
    collector: when the collector leaves its loop its variables are the
    aggregates of exactly the outcomes sent, in the order of the sends. *)
Theorem collector_receives_what_was_sent
    (count_p count_r : Z) (tr : list label) (s : state) :
  run tr (init_state count_p count_r) = Some s ->
  (exists rs, coll s = collect rs /\ rs ++ results s = sent tr)
  /\ (collecting s = false ->
      coll s = collect (sent tr)
      /\ durations (coll s) = map Duration (sent tr)).
Proof.
  intro Hrun.
  destruct (run_sent tr _ s [] Hrun eq_refl) as (rs & Hc & Hrs). cbn in Hrs.
  split; [exists rs; auto | ].
  intro Hcol.
  pose proof (run_inv_run _ _ _ _ _ (run_inv_init count_p count_r) Hrun)
    as (_ & _ & _ & _ & Hend & _).
  destruct (Hend Hcol) as [Hres _]. rewrite Hres, app_nil_r in Hrs. subst rs.
  split; [exact Hc | ]. rewrite Hc. apply durations_collect.
Qed.

Lemma collector_receives_what_was_sent_witness :
  exists rs,
    coll (mkState 0 false [AtRange] [] 1 false
            (collect [fst (attempt (mkExchange None 1%Z None 200%Z 2%Z 3%Z 4%Z) 0%Z)]) true)
    = collect rs
    /\ rs ++ [] = sent [Take 0; Begin 0;
                        Finish 0 0%Z (mkExchange None 1%Z None 200%Z 2%Z 3%Z 4%Z); Receive].
Proof.
  apply (collector_receives_what_was_sent 1%Z 1%Z
           [Take 0; Begin 0; Finish 0 0%Z (mkExchange None 1%Z None 200%Z 2%Z 3%Z 4%Z); Receive]
           (mkState 0 false [AtRange] [] 1 false
              (collect [fst (attempt (mkExchange None 1%Z None 200%Z 2%Z 3%Z 4%Z) 0%Z)]) true)).
  reflexivity.
Defined.

End RunTheorems.

(** ** After the interrupt *)

Section AfterInterrupt.

Local Open Scope nat_scope.

Lemma step_after_cancel (l : label) (s s' : state) :
  exec_step l s = Some s' -> cancelled s = true ->
  is_begin l = false /\ is_interrupt l = false
  /\ (if is_finish l then 1 else 0) + total_of in_flight (workers s')
     = total_of in_flight (workers s).
Proof.
  intros E Hc.
  destruct l as [i | i | i | i | i t0 x | | | | ]; cbn [exec_step] in E;
    cbn [is_begin is_interrupt is_finish].
  - destruct (nth_error (workers s) i) as [[ | | | ] | ] eqn:Ei; try discriminate.
    destruct (jobs s); try discriminate. injection E as <-. cbn.
    pose proof (total_of_upd in_flight _ _ _ AtSelect Ei) as H. cbn in H. auto with zarith.
  - destruct (nth_error (workers s) i) as [[ | | | ] | ] eqn:Ei; try discriminate.
    destruct (jobs s); try discriminate. injection E as <-. cbn.
    pose proof (total_of_upd in_flight _ _ _ Exited Ei) as H. cbn in H. auto with zarith.
  - destruct (nth_error (workers s) i) as [[ | | | ] | ] eqn:Ei; try discriminate.
    rewrite Hc in E. injection E as <-. cbn.
    pose proof (total_of_upd in_flight _ _ _ Exited Ei) as H. cbn in H. auto with zarith.
  - destruct (nth_error (workers s) i) as [[ | | | ] | ] eqn:Ei; try discriminate.
    rewrite Hc in E. discriminate.
  - destruct (nth_error (workers s) i) as [[ | | | ] | ] eqn:Ei; try discriminate.
    destruct (List.length (results s) <? results_cap s); try discriminate.
    injection E as <-. cbn.
    pose proof (total_of_upd in_flight _ _ _ AtRange Ei) as H. cbn in H.
    repeat split; lia.
  - rewrite Hc in E. discriminate.
  - destruct (forallb is_exited (workers s) && negb (results_closed s));
      try discriminate.
    injection E as <-. cbn. auto.
  - destruct (results s); try discriminate.
    destruct (collecting s); try discriminate. injection E as <-. cbn. auto.
  - destruct (results s); try discriminate.
    destruct (results_closed s && collecting s); try discriminate.
    injection E as <-. cbn. auto.
Qed.

(** X6: Once the signal is set it stays set: no request is begun any more and
    the interrupt does not fire again; the outcomes sent from then on are
    those of the requests that were in flight, one each. *)
Theorem after_interrupt_only_in_flight_finish
    (s s' : state) (tr : list label) :
  cancelled s = true -> run tr s = Some s' ->
  cancelled s' = true
  /\ no_begin tr = true /\ no_interrupt tr = true
  /\ count_finish tr + total_of in_flight (workers s')
     = total_of in_flight (workers s).
Proof.
  revert s. induction tr as [ | l tr IH]; intros s Hc Hrun; cbn [run] in Hrun.
  - injection Hrun as <-. cbn. auto.
  - destruct (exec_step l s) as [s1 | ] eqn:E; [ | discriminate].
    destruct (step_after_cancel _ _ _ E Hc) as (Hb & Hi & Hf).
    destruct (IH s1 (step_cancelled _ _ _ E Hc) Hrun) as (Hc' & Hnb & Hni & Hcnt).
    unfold no_begin, no_interrupt, count_finish in *. cbn [forallb filter].
    rewrite Hb, Hi, Hnb, Hni. cbn [negb andb].
    repeat split; try assumption.
    destruct (is_finish l); cbn [List.length] in *; lia.
Qed.

Lemma after_interrupt_only_in_flight_finish_witness :
  count_finish [Finish 0 0%Z (mkExchange None 1%Z (Some "canceled"%string) 0%Z 2%Z 0%Z 0%Z);
                Take 0; Observe 0; Take 1; Observe 1]
  + total_of in_flight [Exited; Exited]
  = total_of in_flight [InFlight; AtRange].
Proof.
  apply (after_interrupt_only_in_flight_finish
           (mkState 3 true [InFlight; AtRange] [] 5 false collector_init true)
           (mkState 1 true [Exited; Exited]
              [mkResult 0 3 0 (Some "canceled"%string)] 5 false collector_init true)
           [Finish 0 0%Z (mkExchange None 1%Z (Some "canceled"%string) 0%Z 2%Z 0%Z 0%Z);
            Take 0; Observe 0; Take 1; Observe 1]).
  - reflexivity.
  - reflexivity.
Defined.

End AfterInterrupt.

(** ** A negative concurrency *)

Section NoWorkers.

Local Open Scope nat_scope.




End NoWorkers.

(** ** The entry: normalisation, guard and channel filling *)

(** X9: Normalising a target twice is normalising it once, and a target of more
    than four characters starts with [http] once normalised. *)
Theorem normalize_site_idempotent (site : string) :
  normalize_site (normalize_site site) = normalize_site site
  /\ ((4 < String.length site)%nat ->
      substring 0 4 (normalize_site site) = "http"%string).
Proof.
  unfold normalize_site.
  destruct (4 <? String.length site)%nat eqn:Hlen; cbn [andb].
  - destruct (String.eqb_spec (substring 0 4 site) "http") as [Hp | Hp]; cbn [negb].
    + rewrite Hlen. cbn [andb].
      destruct (String.eqb_spec (substring 0 4 site) "http"); [ | contradiction].
      cbn [negb]. auto.
    + split; [reflexivity | intros _; reflexivity].
  - rewrite Hlen. cbn [andb]. split; [reflexivity | ].
    intro H. apply Nat.ltb_lt in H. congruence.
Qed.

Lemma normalize_site_idempotent_witness :
  substring 0 4 (normalize_site "example.org") = "http"%string.
Proof.
  apply (normalize_site_idempotent "example.org"). cbn. lia.
Defined.


Lemma fill_jobs_spec (k capacity len : nat) :
  fill_jobs k capacity len
  = if (len + k <=? capacity)%nat || (k =? 0)%nat then Some (len + k)%nat else None.
Proof.
  revert len. induction k as [ | k IH]; intro len; cbn [fill_jobs].
  - rewrite orb_true_r. f_equal. lia.
  - unfold chan_send. destruct (Nat.ltb_spec len capacity).
    + rewrite IH. replace (S len + k)%nat with (len + S k)%nat by lia.
      destruct (Nat.leb_spec (len + S k) capacity); cbn [orb].
      * reflexivity.
      * destruct k; [lia | reflexivity].
    + destruct (Nat.leb_spec (len + S k) capacity); [lia | reflexivity].
Qed.

(** X11: Filling [jobs] with [count_r] tokens never blocks, because the channel
    was made with capacity [count_r], and leaves the tokens the workers
    start from; with any smaller capacity the loop would block for ever. *)
Theorem fill_jobs_exact (count_p count_r : Z) (capacity : nat) :
  fill_jobs (Z.to_nat count_r) (Z.to_nat count_r) 0
    = Some (jobs (init_state count_p count_r))
  /\ ((capacity < Z.to_nat count_r)%nat ->
      fill_jobs (Z.to_nat count_r) capacity 0 = None).
Proof.
  rewrite !fill_jobs_spec. cbn [Nat.add init_state jobs]. split.
  - rewrite Nat.leb_refl. reflexivity.
  - intro H. destruct (Nat.leb_spec (Z.to_nat count_r) capacity); [lia | ].
    destruct (Nat.eqb_spec (Z.to_nat count_r) 0); [lia | reflexivity].
Qed.

Lemma fill_jobs_exact_witness :
  fill_jobs (Z.to_nat 5) 4 0 = None.
Proof.
  apply (fill_jobs_exact 2 5 4). cbn. lia.
Defined.

(** ** One request, again *)

(** X12: The outcome of a request carries the error of the failing call, if any;
    with an error it has status code 0 and no bytes; it counts as failed
    exactly when a call failed or the response has a status of 400 or
    more. *)
Theorem attempt_outcome_shape (x : exchange) (t0 : Z) :
  Error (fst (attempt x t0)) = request_fails x
  /\ well_formed (fst (attempt x t0))
  /\ (is_failed (fst (attempt x t0)) = true
      <-> request_fails x <> None \/ 400 <= do_status x).
Proof.
  destruct (request_fails x) as [e | ] eqn:Hf.
  - destruct (attempt_failure x e t0 Hf) as (Hs & Hb & He).
    split; [exact He | ]. split; [intros _; auto | ].
    unfold is_failed. rewrite He. split; [left; discriminate | reflexivity].
  - rewrite (attempt_success x t0 Hf). cbn [fst Error].
    split; [reflexivity | ]. split; [intro H; cbn in H; congruence | ].
    unfold is_failed. cbn [Error StatusCode]. rewrite Z.leb_le.
    split; [auto | intros [H | H]; [congruence | exact H]].
Qed.

(** X13: The duration of a failed request is the time until the failing call
    returned, and no duration is negative when no call takes a negative
    time. *)
Theorem attempt_duration_of_failure (x : exchange) (t0 : Z) :
  0 <= build_ns x -> 0 <= do_ns x ->
  0 <= Duration (fst (attempt x t0))
  /\ (build_error x <> None ->
      Duration (fst (attempt x t0)) = saturate64 (build_ns x))
  /\ (build_error x = None ->
      Duration (fst (attempt x t0)) = saturate64 (build_ns x + do_ns x)).
Proof.
  intros Hb Hd.
  assert (Hsat : forall z, 0 <= z -> 0 <= saturate64 z).
  { intros z Hz. unfold saturate64, int64_min, int64_max. lia. }
  unfold attempt, bind, NewRequestWithContext, client_Do, io_ReadAll,
    time_Now, time_Since, elapse, ret, bind.
  destruct (build_error x) as [e1 | ]; cbn.
  - replace (t0 + build_ns x - t0) with (build_ns x) by ring.
    repeat split; [apply Hsat; lia | discriminate].
  - replace (t0 + build_ns x + do_ns x - t0) with (build_ns x + do_ns x) by ring.
    destruct (do_error x); cbn;
      (repeat split; [apply Hsat; lia | congruence]).
Qed.

Lemma attempt_duration_of_failure_witness :
  0 <= Duration (fst (attempt (mkExchange (Some "bad url"%string) 40 None 0 0 0 0) 7)).
Proof.
  apply (attempt_duration_of_failure
           (mkExchange (Some "bad url"%string) 40 None 0 0 0 0) 7);
    cbn; lia.
Defined.


(** ** The report *)

Lemma sum_durations_snoc (rs : list result) (r : result) :
  sum_durations (rs ++ [r]) = sum_durations rs + Duration r.
Proof.
  unfold sum_durations. induction rs as [ | a rs IH]; cbn; [lia | ].
  cbn in IH. rewrite IH. lia.
Qed.

Lemma sum_bytes_snoc (rs : list result) (r : result) :
  sum_bytes (rs ++ [r]) = sum_bytes rs + Bytes r.
Proof.
  unfold sum_bytes. induction rs as [ | a rs IH]; cbn; [lia | ].
  cbn in IH. rewrite IH. lia.
Qed.

Lemma totalDuration_collect (rs : list result) :
  totalDuration (collect rs) = wrap64 (sum_durations rs).
Proof.
  induction rs as [ | r rs IH] using rev_ind; [reflexivity | ].
  rewrite collect_snoc, sum_durations_snoc. cbn [collect_one totalDuration].
  rewrite IH. apply wrap64_add_l.
Qed.

Lemma totalBytes_collect (rs : list result) :
  totalBytes (collect rs) = wrap64 (sum_bytes rs).
Proof.
  induction rs as [ | r rs IH] using rev_ind; [reflexivity | ].
  rewrite collect_snoc, sum_bytes_snoc. cbn [collect_one totalBytes].
  rewrite IH. apply wrap64_add_l.
Qed.

(** The report of a run that collected something, field by field. *)
Lemma build_report_nonempty (rs : list result) (elapsed : Z) :
  rs <> [] -> Z.of_nat (List.length rs) < max_durations ->
  exists ps,
    compute_percentiles (map Duration rs) = Some ps
    /\ build_report (collect rs) elapsed
       = Some (mkReport elapsed (Z.of_nat (List.length rs)) (count_ok rs)
                 (count_failed rs)
                 (mkRatio (Z.of_nat (List.length rs)) elapsed)
                 (Some (mkLatency
                          (wrap64 (Z.quot (wrap64 (sum_durations rs))
                                     (Z.of_nat (List.length rs))))
                          (list_min time_Hour (map Duration rs))
                          (list_max 0 (map Duration rs))
                          ps
                          (if 0 <? elapsed
                           then Some (mkRatio (wrap64 (sum_bytes rs)) elapsed)
                           else None)
                          (mkRatio (count_ok rs) (Z.of_nat (List.length rs)))))).
Proof.
  intros Hne Hlen. assert (Hb : Z.of_nat (List.length rs) < 2 ^ 45) by exact Hlen.
  destruct (compute_percentiles_spec (map Duration rs))
    as (a & b & c & d & Hc & _).
  { destruct rs; [congruence | discriminate]. }
  { rewrite length_map. exact Hlen. }
  exists (mkPercentiles a b c d). split; [exact Hc | ].
  assert (Hpos : 0 < Z.of_nat (List.length rs))
    by (destruct rs; [congruence | cbn [List.length]; lia]).
  pose proof (counts_partition rs) as Hp.
  assert (0 <= count_failed rs) by (unfold count_failed; lia).
  assert (0 <= count_ok rs) by (unfold count_ok; lia).
  unfold build_report.
  rewrite durations_collect, Hc, totalRequests_collect, successCount_collect,
    failedCount_collect, totalDuration_collect, totalBytes_collect,
    minDuration_collect, maxDuration_collect.
  rewrite (wrap64_small (Z.of_nat (List.length rs))) by lia.
  rewrite (wrap64_small (count_ok rs)), (wrap64_small (count_failed rs)) by lia.
  destruct (Z.ltb_spec 0 (Z.of_nat (List.length rs))); [ | lia].
  unfold go_div.
  destruct (Z.eqb_spec (Z.of_nat (List.length rs)) 0); [lia | ].
  reflexivity.
Qed.

(** X14: The report is always built: no list of outcomes and no elapsed time
    makes the reporting path panic.  The latency lines are present exactly
    when an outcome was collected, and among them the throughput exactly
    when the elapsed time is positive. *)
Theorem report_always_built (rs : list result) (elapsed : Z) :
  Z.of_nat (List.length rs) < max_durations ->
  exists r,
    build_report (collect rs) elapsed = Some r
    /\ timeTaken r = elapsed
    /\ total r = Z.of_nat (List.length rs)
    /\ requestsPerSecond r = mkRatio (Z.of_nat (List.length rs)) elapsed
    /\ (latency r = None <-> rs = [])
    /\ (forall lat, latency r = Some lat ->
                    (throughput lat = None <-> elapsed <= 0)
                    /\ successRate lat
                       = mkRatio (count_ok rs) (Z.of_nat (List.length rs))).
Proof.
  intro Hlen.
  destruct rs as [ | r0 rs'] eqn:Ers.
  - cbn. eexists. repeat split; cbn; try discriminate; auto.
  - rewrite <- Ers in *.
    assert (Hne : rs <> []) by (rewrite Ers; discriminate).
    destruct (build_report_nonempty rs elapsed Hne Hlen) as (ps & _ & Hr).
    eexists. split; [exact Hr | ]. cbn.
    repeat split; try discriminate; try congruence;
      match goal with
      | H : Some _ = Some _ |- _ => injection H as <-; cbn
      end;
      try reflexivity;
      destruct (Z.ltb_spec 0 elapsed); try discriminate; try reflexivity; lia.
Qed.

Lemma report_always_built_witness :
  exists r,
    build_report (collect [mkResult 200 5 10 None; mkResult 500 7 2 None]) 0
      = Some r
    /\ timeTaken r = 0
    /\ total r = Z.of_nat (List.length [mkResult 200 5 10 None; mkResult 500 7 2 None])
    /\ requestsPerSecond r
       = mkRatio (Z.of_nat (List.length [mkResult 200 5 10 None; mkResult 500 7 2 None])) 0
    /\ (latency r = None <-> [mkResult 200 5 10 None; mkResult 500 7 2 None] = [])
    /\ (forall lat, latency r = Some lat ->
                    (throughput lat = None <-> 0 <= 0)
                    /\ successRate lat
                       = mkRatio (count_ok [mkResult 200 5 10 None; mkResult 500 7 2 None])
                           (Z.of_nat (List.length [mkResult 200 5 10 None;
                                                   mkResult 500 7 2 None]))).
Proof.
  apply (report_always_built [mkResult 200 5 10 None; mkResult 500 7 2 None] 0).
  vm_compute. reflexivity.
Defined.

(** ** The order of arrival does not matter *)

Lemma insert_sorted_comm (x y : Z) (l : list Z) :
  insert_sorted x (insert_sorted y l) = insert_sorted y (insert_sorted x l).
Proof.
  induction l as [ | z l IH];
    repeat (cbn [insert_sorted];
            match goal with
            | |- context [?a <=? ?b] => destruct (Z.leb_spec a b)
            end);
    cbn [insert_sorted]; rewrite ?IH; try reflexivity; try lia;
    assert (x = y) by lia; subst; reflexivity.
Qed.

Lemma slices_Sort_permutation (l l' : list Z) :
  Permutation l l' -> slices_Sort l = slices_Sort l'.
Proof.
  induction 1 as [ | x l l' _ IH | x y l | l l' l'' _ IH1 _ IH2]; cbn.
  - reflexivity.
  - unfold slices_Sort in IH. rewrite IH. reflexivity.
  - apply insert_sorted_comm.
  - congruence.
Qed.

Lemma compute_percentiles_permutation (ds ds' : list Z) :
  Permutation ds ds' -> compute_percentiles ds = compute_percentiles ds'.
Proof.
  intro H. unfold compute_percentiles.
  rewrite (Permutation_length H), (slices_Sort_permutation _ _ H). reflexivity.
Qed.

Lemma list_min_head (d x : Z) (l : list Z) :
  list_min d (x :: l) = Z.min x (list_min d l).
Proof. destruct l; cbn [list_min]; lia. Qed.

Lemma list_max_head (d x : Z) (l : list Z) :
  list_max d (x :: l) = Z.max x (list_max d l).
Proof. destruct l; cbn [list_max]; lia. Qed.

Lemma list_min_permutation (d : Z) (l l' : list Z) :
  Permutation l l' -> list_min d l = list_min d l'.
Proof.
  induction 1 as [ | x l l' _ IH | x y l | l l' l'' _ IH1 _ IH2].
  - reflexivity.
  - rewrite !list_min_head, IH. reflexivity.
  - rewrite !list_min_head. lia.
  - congruence.
Qed.

Lemma list_max_permutation (d : Z) (l l' : list Z) :
  Permutation l l' -> list_max d l = list_max d l'.
Proof.
  induction 1 as [ | x l l' _ IH | x y l | l l' l'' _ IH1 _ IH2].
  - reflexivity.
  - rewrite !list_max_head, IH. reflexivity.
  - rewrite !list_max_head. lia.
  - congruence.
Qed.

Lemma sum_durations_permutation (rs rs' : list result) :
  Permutation rs rs' -> sum_durations rs = sum_durations rs'.
Proof.
  unfold sum_durations.
  induction 1 as [ | x l l' _ IH | x y l | l l' l'' _ IH1 _ IH2]; cbn in *; lia.
Qed.

Lemma sum_bytes_permutation (rs rs' : list result) :
  Permutation rs rs' -> sum_bytes rs = sum_bytes rs'.
Proof.
  unfold sum_bytes.
  induction 1 as [ | x l l' _ IH | x y l | l l' l'' _ IH1 _ IH2]; cbn in *; lia.
Qed.

Lemma filter_length_permutation {A : Type} (f : A -> bool) (l l' : list A) :
  Permutation l l' ->
  List.length (filter f l) = List.length (filter f l').
Proof.
  induction 1 as [ | x l l' _ IH | x y l | l l' l'' _ IH1 _ IH2]; cbn.
  - reflexivity.
  - destruct (f x); cbn; congruence.
  - destruct (f x); destruct (f y); reflexivity.
  - congruence.
Qed.

(** X15: The report does not depend on the order in which the outcomes arrive
    from the workers: two runs that collect the same outcomes in different
    orders print the same figures. *)
Theorem report_independent_of_arrival_order
    (rs rs' : list result) (elapsed : Z) :
  Permutation rs rs' ->
  build_report (collect rs) elapsed = build_report (collect rs') elapsed.
Proof.
  intro H. unfold build_report.
  rewrite !durations_collect, !totalRequests_collect, !successCount_collect,
    !failedCount_collect, !totalDuration_collect, !totalBytes_collect,
    !minDuration_collect, !maxDuration_collect.
  rewrite (compute_percentiles_permutation _ _ (Permutation_map Duration H)).
  rewrite (list_min_permutation _ _ _ (Permutation_map Duration H)).
  rewrite (list_max_permutation _ _ _ (Permutation_map Duration H)).
  rewrite (sum_durations_permutation _ _ H), (sum_bytes_permutation _ _ H).
  unfold count_ok, count_failed.
  rewrite (filter_length_permutation is_failed _ _ H).
  rewrite (filter_length_permutation (fun r => negb (is_failed r)) _ _ H).
  rewrite (Permutation_length H). reflexivity.
Qed.

Lemma report_independent_of_arrival_order_witness :
  build_report (collect [mkResult 200 5 10 None; mkResult 500 7 2 None;
                         mkResult 0 3 0 (Some "refused"%string)]) 1000
  = build_report (collect [mkResult 0 3 0 (Some "refused"%string);
                           mkResult 200 5 10 None; mkResult 500 7 2 None]) 1000.
Proof.
  apply (report_independent_of_arrival_order
           [mkResult 200 5 10 None; mkResult 500 7 2 None;
            mkResult 0 3 0 (Some "refused"%string)]
           [mkResult 0 3 0 (Some "refused"%string);
            mkResult 200 5 10 None; mkResult 500 7 2 None]).
  apply Permutation_sym. apply (Permutation_cons_app [_; _] []). reflexivity.
Defined.

(** ** Average and small samples *)

Lemma sum_durations_bounds (rs : list result) (a b : Z) :
  (forall r, In r rs -> a <= Duration r <= b) ->
  a * Z.of_nat (List.length rs) <= sum_durations rs
  <= b * Z.of_nat (List.length rs).
Proof.
  unfold sum_durations. induction rs as [ | r rs IH]; intro H.
  - cbn. lia.
  - cbn [fold_right List.length].
    pose proof (H r (or_introl eq_refl)).
    specialize (IH (fun r' Hr' => H r' (or_intror Hr'))). lia.
Qed.

(** X16: When the durations are not negative and their sum fits 64 bits, the
    reported average is the truncated mean of the durations and lies between
    the reported minimum and the reported maximum. *)
Theorem average_between_min_and_max (rs : list result) (elapsed : Z) :
  rs <> [] -> Z.of_nat (List.length rs) < max_durations ->
  Forall (fun r => 0 <= Duration r) rs -> sum_durations rs < 2 ^ 63 ->
  exists r lat,
    build_report (collect rs) elapsed = Some r
    /\ latency r = Some lat
    /\ avgDuration lat = sum_durations rs / Z.of_nat (List.length rs)
    /\ minReported lat <= avgDuration lat <= maxReported lat.
Proof.
  intros Hne Hlen Hpos Hsum.
  destruct (build_report_nonempty rs elapsed Hne Hlen) as (ps & _ & Hr).
  eexists. eexists. split; [exact Hr | ]. split; [reflexivity | ].
  cbn [avgDuration minReported maxReported].
  set (n := Z.of_nat (List.length rs)) in *.
  assert (Hn : 0 < n) by (subst n; destruct rs; [congruence | cbn [List.length]; lia]).
  rewrite Forall_forall in Hpos.
  assert (Hin : forall r, In r rs ->
            list_min time_Hour (map Duration rs) <= Duration r
            <= list_max 0 (map Duration rs)).
  { intros r Hr'. split.
    - apply list_min_le. right. apply in_map, Hr'.
    - apply list_max_ge. right. apply in_map, Hr'. }
  pose proof (sum_durations_bounds rs _ _ Hin) as [Hlo Hhi]. fold n in Hlo, Hhi.
  assert (Hs0 : 0 <= sum_durations rs).
  { assert (H1 : 0 * n <= sum_durations rs); [ | lia].
    apply (sum_durations_bounds rs 0 (list_max 0 (map Duration rs))).
    intros r Hr'. split; [apply Hpos, Hr' | apply Hin, Hr']. }
  rewrite (wrap64_small (sum_durations rs)) by lia.
  rewrite Z.quot_div_nonneg by lia.
  assert (Hq : 0 <= sum_durations rs / n <= sum_durations rs).
  { split; [apply Z.div_pos; lia | ].
    apply Z.div_le_upper_bound; [lia | nia]. }
  rewrite wrap64_small by lia.
  split; [reflexivity | ]. split.
  - apply Z.div_le_lower_bound; lia.
  - apply Z.div_le_upper_bound; lia.
Qed.

Lemma average_between_min_and_max_witness :
  exists r lat,
    build_report (collect [mkResult 200 5 10 None; mkResult 500 8 2 None]) 100 = Some r
    /\ latency r = Some lat
    /\ avgDuration lat
       = sum_durations [mkResult 200 5 10 None; mkResult 500 8 2 None]
         / Z.of_nat (List.length [mkResult 200 5 10 None; mkResult 500 8 2 None])
    /\ minReported lat <= avgDuration lat <= maxReported lat.
Proof.
  apply (average_between_min_and_max
           [mkResult 200 5 10 None; mkResult 500 8 2 None] 100).
  - discriminate.
  - vm_compute. reflexivity.
  - repeat constructor; cbn; lia.
  - vm_compute. reflexivity.
Defined.

Lemma list_max_in (d : Z) (l : list Z) : In (list_max d l) (d :: l).
Proof.
  revert d. induction l as [ | x l IH]; intro d; cbn [list_max].
  - left. reflexivity.
  - destruct (Z.max_spec d (list_max x l)) as [[_ ->] | [_ ->]].
    + right. apply IH.
    + left. reflexivity.
Qed.

(** The last element of a sorted arrangement is the maximum. *)
Lemma sorted_last_maximum (ds : list Z) (d M : Z) :
  nth_error (slices_Sort ds) (List.length ds - 1) = Some d ->
  maximum ds = Some M -> d = M.
Proof.
  intros Hd HM.
  destruct ds as [ | x tl]; [discriminate | ].
  cbn [maximum] in HM. injection HM as <-.
  pose proof (slices_Sort_perm (x :: tl)) as Hperm.
  pose proof (slices_Sort_sorted (x :: tl)) as Hs.
  apply Z.le_antisymm.
  - apply list_max_ge. apply (Permutation_in d (Permutation_sym Hperm)).
    apply (nth_error_In _ _ Hd).
  - pose proof (list_max_in x tl) as Hin.
    apply (Permutation_in _ Hperm) in Hin.
    apply In_nth_error in Hin as [i Hi].
    assert (Hlt : (i < List.length (slices_Sort (x :: tl)))%nat)
      by (apply nth_error_Some; congruence).
    rewrite slices_Sort_length in Hlt.
    apply (sorted_nth_error_le _ i (List.length (x :: tl) - 1) _ _ Hs);
      [lia | exact Hi | exact Hd].
Qed.

(** X17: On small samples the high percentiles are the maximum: with at most
    100 durations the 99th percentile is the largest duration, with at most
    20 so is the 95th, with at most 10 the 90th, and with at most 2 the
    50th. *)
Theorem small_sample_percentiles_are_maximum (ds : list Z) :
  ds <> [] -> (List.length ds <= 100)%nat ->
  exists ps M,
    compute_percentiles ds = Some ps /\ maximum ds = Some M
    /\ p99 ps = M
    /\ ((List.length ds <= 20)%nat -> p95 ps = M)
    /\ ((List.length ds <= 10)%nat -> p90 ps = M)
    /\ ((List.length ds <= 2)%nat -> p50 ps = M).
Proof.
  intros Hne Hlen.
  assert (Hn : (1 <= List.length ds)%nat)
    by (destruct ds; [congruence | cbn [List.length]; lia]).
  destruct (compute_percentiles_spec ds Hne) as (a & b & c & d & Hc & Na & Nb & Nc & Nd).
  { unfold max_durations. change (2 ^ 45) with 35184372088832. lia. }
  destruct (maximum ds) as [M | ] eqn:HM; [ | destruct ds; [congruence | discriminate]].
  exists (mkPercentiles a b c d), M. cbn [p50 p90 p95 p99].
  assert (Hidx : forall p, 0 <= p <= 99 ->
            (100 - p) * Z.of_nat (List.length ds) <= 100 ->
            Z.to_nat (rank_index p (Z.of_nat (List.length ds)))
            = (List.length ds - 1)%nat).
  { intros p Hp Hsmall. unfold rank_index.
    assert (E : p * Z.of_nat (List.length ds) / 100 = Z.of_nat (List.length ds) - 1).
    { symmetry. apply (Z.div_unique _ _ _
        (p * Z.of_nat (List.length ds) - 100 * (Z.of_nat (List.length ds) - 1))); nia. }
    rewrite E. lia. }
  split; [exact Hc | ]. split; [reflexivity | ].
  split; [ | split; [ | split]].
  - rewrite (Hidx 99) in Nd by lia. apply (sorted_last_maximum ds _ _ Nd HM).
  - intro H. rewrite (Hidx 95) in Nc by lia. apply (sorted_last_maximum ds _ _ Nc HM).
  - intro H. rewrite (Hidx 90) in Nb by lia. apply (sorted_last_maximum ds _ _ Nb HM).
  - intro H. rewrite (Hidx 50) in Na by lia. apply (sorted_last_maximum ds _ _ Na HM).
Qed.

Lemma small_sample_percentiles_are_maximum_witness :
  exists ps M,
    compute_percentiles [30; 10; 20] = Some ps /\ maximum [30; 10; 20] = Some M
    /\ p99 ps = M
    /\ ((List.length [30; 10; 20] <= 20)%nat -> p95 ps = M)
    /\ ((List.length [30; 10; 20] <= 10)%nat -> p90 ps = M)
    /\ ((List.length [30; 10; 20] <= 2)%nat -> p50 ps = M).
Proof.
  apply (small_sample_percentiles_are_maximum [30; 10; 20]).
  - discriminate.
  - cbn. lia.
Defined.

(** ** Where the tokens go *)

Section Tokens.

Local Open Scope nat_scope.

Lemma step_tokens (l : label) (s s' : state) :
  exec_step l s = Some s' ->
  jobs s' + total_of pending (workers s') + List.length (results s')
  + List.length (durations (coll s')) + (if is_observe l then 1 else 0)
  = jobs s + total_of pending (workers s) + List.length (results s)
    + List.length (durations (coll s))
  /\ total_of returned (workers s')
     = total_of returned (workers s)
       + (if is_observe l then 1 else 0)
       + (match l with Drained _ => 1 | _ => 0 end).
Proof.
  intro E.
  destruct l as [i | i | i | i | i t0 x | | | | ]; cbn [exec_step] in E;
    cbn [is_observe].
  - destruct (nth_error (workers s) i) as [[ | | | ] | ] eqn:Ei; try discriminate.
    destruct (jobs s) eqn:J; try discriminate. injection E as <-. cbn.
    pose proof (total_of_upd pending _ _ _ AtSelect Ei) as H1.
    pose proof (total_of_upd returned _ _ _ AtSelect Ei) as H2. cbn in H1, H2. lia.
  - destruct (nth_error (workers s) i) as [[ | | | ] | ] eqn:Ei; try discriminate.
    destruct (jobs s) eqn:J; try discriminate. injection E as <-. cbn.
    pose proof (total_of_upd pending _ _ _ Exited Ei) as H1.
    pose proof (total_of_upd returned _ _ _ Exited Ei) as H2. cbn in H1, H2. lia.
  - destruct (nth_error (workers s) i) as [[ | | | ] | ] eqn:Ei; try discriminate.
    destruct (cancelled s); try discriminate. injection E as <-. cbn.
    pose proof (total_of_upd pending _ _ _ Exited Ei) as H1.
    pose proof (total_of_upd returned _ _ _ Exited Ei) as H2. cbn in H1, H2. lia.
  - destruct (nth_error (workers s) i) as [[ | | | ] | ] eqn:Ei; try discriminate.
    destruct (cancelled s); try discriminate. injection E as <-. cbn.
    pose proof (total_of_upd pending _ _ _ InFlight Ei) as H1.
    pose proof (total_of_upd returned _ _ _ InFlight Ei) as H2. cbn in H1, H2. lia.
  - destruct (nth_error (workers s) i) as [[ | | | ] | ] eqn:Ei; try discriminate.
    destruct (List.length (results s) <? results_cap s); try discriminate.
    injection E as <-. cbn. rewrite length_app. cbn.
    pose proof (total_of_upd pending _ _ _ AtRange Ei) as H1.
    pose proof (total_of_upd returned _ _ _ AtRange Ei) as H2. cbn in H1, H2. lia.
  - destruct (cancelled s); try discriminate. injection E as <-. cbn. lia.
  - destruct (forallb is_exited (workers s) && negb (results_closed s));
      try discriminate.
    injection E as <-. cbn. lia.
  - destruct (results s) eqn:R; try discriminate.
    destruct (collecting s); try discriminate. injection E as <-.
    cbn [jobs workers results coll collect_one durations].
    rewrite length_app. cbn. lia.
  - destruct (results s) eqn:R; try discriminate.
    destruct (results_closed s && collecting s); try discriminate.
    injection E as <-. cbn. lia.
Qed.

Lemma run_tokens (tr : list label) (s s' : state) :
  run tr s = Some s' ->
  jobs s' + total_of pending (workers s') + List.length (results s')
  + List.length (durations (coll s')) + count_observe tr
  = jobs s + total_of pending (workers s) + List.length (results s)
    + List.length (durations (coll s))
  /\ total_of returned (workers s) + count_observe tr
     <= total_of returned (workers s').
Proof.
  revert s. induction tr as [ | l tr IH]; intros s Hrun; cbn [run] in Hrun.
  - injection Hrun as <-. cbn. lia.
  - destruct (exec_step l s) as [s1 | ] eqn:E; [ | discriminate].
    destruct (step_tokens _ _ _ E) as [H1 H2].
    destruct (IH _ Hrun) as [H3 H4].
    unfold count_observe in *. cbn [filter].
    destruct (is_observe l); cbn [List.length]; destruct l; lia.
Qed.

Lemma total_of_returned_le (ws : list wstate) :
  total_of returned ws <= List.length ws.
Proof.
  induction ws as [ | w ws IH]; cbn; [lia | ]. destruct w; cbn; lia.
Qed.

Lemma run_workers_length (tr : list label) (s s' : state) :
  run tr s = Some s' -> List.length (workers s') = List.length (workers s).
Proof.
  revert s. induction tr as [ | l tr IH]; intros s Hrun; cbn [run] in Hrun.
  - injection Hrun as <-. reflexivity.
  - destruct (exec_step l s) as [s1 | ] eqn:E; [ | discriminate].
    rewrite (IH _ Hrun). pose proof (step_workers _ _ _ E) as H.
    destruct (actor l).
    + destruct H as (v & w & _ & _ & ->). apply length_upd.
    + rewrite H. reflexivity.
Qed.

(** X7: Every token is accounted for at every point of every run: it is still
    queued, held by a worker, buffered as an outcome, counted by the
    collector, or was dropped by a worker that found the signal set; and a
    worker drops at most one token, so an interrupt loses at most as many
    tokens as there are workers. *)
Theorem token_accounting
    (count_p count_r : Z) (tr : list label) (s : state) :
  run tr (init_state count_p count_r) = Some s ->
  jobs s + total_of pending (workers s) + List.length (results s)
  + List.length (durations (coll s)) + count_observe tr
  = Z.to_nat count_r
  /\ count_observe tr <= Z.to_nat count_p
  /\ (no_interrupt tr = true -> count_observe tr = 0).
Proof.
  intro Hrun.
  destruct (run_tokens _ _ _ Hrun) as [H1 H2].
  pose proof (run_workers_length _ _ _ Hrun) as Hl.
  pose proof (total_of_returned_le (workers s)) as Hr.
  assert (Hp : forall n, total_of pending (repeat AtRange n) = 0)
    by (induction n; cbn; auto).
  cbn [init_state jobs workers results coll collector_init durations List.length]
    in H1, H2, Hl.
  rewrite Hp in H1. rewrite repeat_length in Hl.
  split; [lia | ]. split; [lia | ].
  intro Hni.
  pose proof (pool_inv_run _ _ _ _ _ (pool_inv_init count_p count_r) Hni Hrun)
    as (_ & Hsum & _).
  lia.
Qed.

Lemma token_accounting_witness :
  count_observe [Take 0; Take 1; Begin 1; Interrupt; Observe 0] <= Z.to_nat 2.
Proof.
  apply (token_accounting 2 4 [Take 0; Take 1; Begin 1; Interrupt; Observe 0]
           (mkState 2 true [Exited; InFlight] [] 4 false collector_init true)).
  reflexivity.
Defined.

End Tokens.

(** ** Requests answered within the hour *)

Lemma attempt_duration (x : exchange) (t0 : Z) :
  Duration (fst (attempt x t0))
  = saturate64 (match build_error x with
                | Some _ => build_ns x
                | None => build_ns x + do_ns x
                end).
Proof.
  unfold attempt, bind, NewRequestWithContext, client_Do, io_ReadAll,
    time_Now, time_Since, elapse, ret, bind.
  destruct (build_error x) as [e1 | ]; cbn.
  - f_equal. ring.
  - destruct (do_error x); cbn; f_equal; ring.
Qed.

(** X18: When every request gets its answer (or its failure) within the hour,
    as the client timeout of ten seconds is there to ensure, the reported
    minimum and maximum are the minimum and the maximum of the durations. *)
Theorem min_max_exact_within_the_hour (xs : list (exchange * Z)) :
  xs <> [] ->
  Forall (fun p => 0 <= build_ns (fst p) /\ 0 <= do_ns (fst p)
                   /\ build_ns (fst p) + do_ns (fst p) <= time_Hour) xs ->
  Some (minDuration (collect (outcomes xs)))
    = minimum (map Duration (outcomes xs))
  /\ Some (maxDuration (collect (outcomes xs)))
     = maximum (map Duration (outcomes xs))
  /\ Forall (fun d => 0 <= d <= time_Hour) (map Duration (outcomes xs)).
Proof.
  intros Hne Hall.
  assert (Hd : Forall (fun d => 0 <= d <= time_Hour) (map Duration (outcomes xs))).
  { unfold outcomes. rewrite map_map. apply Forall_map.
    eapply Forall_impl; [ | exact Hall]. intros [x t0] (Hb & Hdo & Hh). cbn [fst snd] in *.
    rewrite attempt_duration. unfold saturate64, int64_min, int64_max.
    assert (time_Hour < 2 ^ 63) by (vm_compute; reflexivity).
    destruct (build_error x); lia. }
  rewrite minDuration_collect, maxDuration_collect.
  destruct (map Duration (outcomes xs)) as [ | d ds] eqn:E.
  - destruct xs; [congruence | discriminate].
  - cbn [minimum maximum list_min list_max].
    inversion Hd as [ | ? ? Hd0 Hds]; subst.
    pose proof (list_min_le d ds d (or_introl eq_refl)).
    pose proof (list_max_ge d ds d (or_introl eq_refl)).
    repeat split; try (f_equal; lia).
    constructor; assumption.
Qed.

Lemma min_max_exact_within_the_hour_witness :
  Some (minDuration (collect (outcomes [(mkExchange None 10 None 200 20 5 30, 0);
                                        (mkExchange None 10 (Some "timeout"%string) 0
                                           (10 * time_Second) 0 0, 100)])))
  = minimum (map Duration (outcomes [(mkExchange None 10 None 200 20 5 30, 0);
                                     (mkExchange None 10 (Some "timeout"%string) 0
                                        (10 * time_Second) 0 0, 100)])).
Proof.
  apply (min_max_exact_within_the_hour
           [(mkExchange None 10 None 200 20 5 30, 0);
            (mkExchange None 10 (Some "timeout"%string) 0 (10 * time_Second) 0 0, 100)]).
  - discriminate.
  - repeat constructor; vm_compute; discriminate.
Defined.
